(** * Radicale: the file-based rights backend (radicale/rights/from_file.py)

    A shallow embedding of [Rights.authorized] and of the parts of the Python
    standard library it calls ([re.escape], [re.fullmatch], [str.format],
    [configparser.ConfigParser] with its basic interpolation), followed by
    the properties of the authorization decision. *)

From Stdlib Require Import String Ascii List Bool Arith NArith Lia.
Import ListNotations.

(** ** Python values *)

(** A Python [str] is modelled as the list of its characters; only characters
    below 256 are covered.  String literals are read through the coercion. *)
Definition str := list ascii.

Coercion list_ascii_of_string : string >-> list.
Arguments list_ascii_of_string : simpl never.

Open Scope string_scope.
Open Scope list_scope.
Open Scope nat_scope.

Definition chr_eqb (a b : ascii) : bool := Ascii.eqb a b.
Arguments chr_eqb : simpl never.

Fixpoint str_eqb (a b : str) : bool :=
  match a, b with
  | [], [] => true
  | x :: a', y :: b' => chr_eqb x y && str_eqb a' b'
  | _, _ => false
  end.

(** [c in s] for a character [c]. *)
Definition chr_in (c : ascii) (s : str) : bool := existsb (chr_eqb c) s.

(** ** Exceptions and results *)

(** The exceptions that can reach [authorized].  The two [RuntimeError]s the
    method raises itself are told apart by their message; each carries the
    values interpolated into it. *)
Inductive exn : Type :=
| NoSectionError (section : str)
| NoOptionError (option section : str)
| DuplicateSectionError (section : str)
| DuplicateOptionError (section option : str)
| ParsingError
| UnicodeDecodeError
| InterpolationSyntaxError (option section : str)
| InterpolationMissingOptionError (option section var : str)
| InterpolationDepthError (option section : str)
| re_error
| TypeError
| IndexError
| KeyError (key : str)
| ValueError
| OverflowError
    (* "No such file: %r" *)
| RuntimeError_no_such_file (filename : str)
    (* "Failed to load rights file %r: %s" *)
| RuntimeError_load (filename : str) (e : exn)
    (* "Error in section %r of rights file %r: %s" *)
| RuntimeError_section (section filename : str) (e : exn).

(** The outcome of a call: a value, a raised exception, or [Unmodelled] when
    the call leaves the fragment of the library that is modelled here (a
    look-ahead in a pattern, a format specification in a replacement field,
    sections given under names that no file can give them); nothing is
    stated about such runs. *)
Inductive result (A : Type) : Type :=
| Ret (a : A)
| Raise (e : exn)
| Unmodelled.

Arguments Ret {A} a.
Arguments Raise {A} e.
Arguments Unmodelled {A}.

Definition bind {A B : Type} (m : result A) (k : A -> result B) : result B :=
  match m with
  | Ret a => k a
  | Raise e => Raise e
  | Unmodelled => Unmodelled
  end.

(** [try: m except Exception as e: h e] *)
Definition try_except {A : Type} (m : result A) (h : exn -> result A) : result A :=
  match m with
  | Raise e => h e
  | _ => m
  end.

Declare Scope py_scope.
Delimit Scope py_scope with py.
Notation "x <- m ;; k" := (bind m (fun x => k))
  (at level 61, m at next level, right associativity) : py_scope.
Open Scope py_scope.

(** ** The [re] module

    Patterns are read as CPython (3.7 and later) reads a [str] pattern
    without flags.  The fragment covered: literals, [\c] for a [c] that is
    no ASCII letter or digit, [.], character sets [[...]] without class
    escapes, [^] and [$], alternation, capturing groups and [(?:...)], and
    the greedy quantifiers [*], [+], [?], [{m}], [{m,n}].  Everything else
    compiles to [Unmodelled]. *)
Module re.

Definition between (lo hi : nat) (c : ascii) : bool :=
  (lo <=? nat_of_ascii c) && (nat_of_ascii c <=? hi).

Definition is_digit (c : ascii) : bool := between 48 57 c.

Definition is_alnum (c : ascii) : bool :=
  is_digit c || between 65 90 c || between 97 122 c.

Definition newline : ascii := ascii_of_nat 10.

(** [_special_chars_map]: the characters [re.escape] puts a backslash
    before (tab, line feed, carriage return, vertical tab and form feed
    are the last five). *)
Definition special_chars : str :=
  "()[]{}?*+-|^$\.&~# "
    ++ [ascii_of_nat 9; ascii_of_nat 10; ascii_of_nat 13;
        ascii_of_nat 11; ascii_of_nat 12].

Definition escape_chr (c : ascii) : str :=
  if chr_in c special_chars then ["\"%char; c] else [c].

(** [re.escape(pattern)] *)
Definition escape (pattern : str) : str := flat_map escape_chr pattern.

(** *** Tokens: a character, or a backslash with the character after it. *)
Inductive token : Type :=
| TChar (c : ascii)
| TEsc (c : ascii).

(** The tokens of a pattern; a lone backslash at its end is no token. *)
Fixpoint tokenize (p : str) : list token :=
  match p with
  | [] => []
  | c :: rest =>
      if chr_eqb c "\" then
        match rest with
        | [] => []
        | d :: rest' => TEsc d :: tokenize rest'
        end
      else TChar c :: tokenize rest
  end.

(** The pattern ends in a lone backslash.  The tokenizer of [sre_parse]
    reads one token ahead: "bad escape (end of pattern)" is raised when the
    token before the backslash is taken, and not before. *)
Fixpoint bad_escape (p : str) : bool :=
  match p with
  | [] => false
  | c :: rest =>
      if chr_eqb c "\" then
        match rest with
        | [] => true
        | _ :: rest' => bad_escape rest'
        end
      else bad_escape rest
  end.

Definition is_chr (c : ascii) (t : token) : bool :=
  match t with
  | TChar x => chr_eqb x c
  | TEsc _ => false
  end.

(** The next token is the character [c]. *)
Definition head_is (c : ascii) (toks : list token) : bool :=
  match toks with
  | t :: _ => is_chr c t
  | [] => false
  end.

(** *** Parsed patterns, named after the opcodes of [sre_parse]. *)
Inductive regex : Type :=
| Eps
| Literal (c : ascii)
| Any
| In (negate : bool) (ranges : list (ascii * ascii))
| AtBeginning
| AtEnd
| Cat (r1 r2 : regex)
| Branch (r1 r2 : regex)
| MaxRepeat (min : nat) (max : option nat) (r : regex)
| SubPattern (group : option nat) (r : regex).

Fixpoint sequence (items : list regex) : regex :=
  match items with
  | [] => Eps
  | r :: items' => Cat r (sequence items')
  end.

Fixpoint branches (first : regex) (others : list regex) : regex :=
  match others with
  | [] => first
  | r :: others' => Branch first (branches r others')
  end.

(** *** Repetition counts [{m,n}] *)

Definition digit_value (c : ascii) : N := N.of_nat (nat_of_ascii c - 48).

(** [int(digits)] *)
Definition int_of_digits (digits : str) : N :=
  fold_left (fun acc c => (10 * acc + digit_value c)%N) digits 0%N.

Definition MAXREPEAT : N := 4294967295.

Fixpoint span_digits (toks : list token) : str * list token :=
  match toks with
  | TChar c :: rest =>
      if is_digit c
      then let '(ds, rest') := span_digits rest in (c :: ds, rest')
      else ([], toks)
  | _ => ([], toks)
  end.

Inductive braces : Type :=
| BrLiteral                       (* the brace is an ordinary character *)
| BrRepeat (min : nat) (max : option nat) (consumed : nat)
| BrError
| BrOverflow.

(** What follows an opening brace; [consumed] counts the tokens up to and
    with the closing brace.  [bad]: a lone backslash follows the tokens; it
    is read when the closing brace before it is taken, ahead of the checks
    of the counts. *)
Definition parse_braces (bad : bool) (toks : list token) : braces :=
  if head_is "}" toks then BrLiteral
  else
    let '(lo, r1) := span_digits toks in
    let '(hi, r2) := if head_is "," r1 then span_digits (tl r1) else (lo, r1) in
    if head_is "}" r2 then
      let min := match lo with [] => 0%N | _ => int_of_digits lo end in
      let max := match hi with [] => None | _ => Some (int_of_digits hi) end in
      let consumed := length toks - length (tl r2) in
      if bad && (length (tl r2) =? 0) then BrError
      else if (MAXREPEAT <=? min)%N then BrOverflow
      else
        match max with
        | Some n =>
            if (MAXREPEAT <=? n)%N then BrOverflow
            else if (n <? min)%N then BrError
            else BrRepeat (N.to_nat min) (Some (N.to_nat n)) consumed
        | None => BrRepeat (N.to_nat min) None consumed
        end
    else BrLiteral.

(** *** Character sets *)

Inductive set_result : Type :=
| SetOk (item : regex) (consumed : nat)
| SetError
| SetUnmodelled.

(** [_class_escape] and the plain character of a set. *)
Definition class_code (t : token) : option ascii :=
  match t with
  | TChar c => Some c
  | TEsc c => if is_alnum c then None else Some c
  end.

(** The items of a set up to its closing bracket; [acc] holds the ranges
    read so far, latest first, and [n] the tokens consumed. *)
Fixpoint parse_set_items (negate : bool) (toks : list token)
         (acc : list (ascii * ascii)) (n : nat) : set_result :=
  match toks with
  | [] => SetError
  | this :: rest =>
      if is_chr "]" this && negb (match acc with [] => true | _ => false end)
      then SetOk (In negate (rev acc)) (S n)
      else
        match class_code this with
        | None => SetUnmodelled
        | Some code1 =>
            match rest with
            | dash :: that :: rest' =>
                if negb (is_chr "-" dash)
                then parse_set_items negate rest ((code1, code1) :: acc) (S n)
                else if is_chr "]" that
                then SetOk (In negate (rev (("-"%char, "-"%char) :: (code1, code1) :: acc)))
                           (3 + n)
                else
                  match class_code that with
                  | None => SetUnmodelled
                  | Some code2 =>
                      if nat_of_ascii code2 <? nat_of_ascii code1 then SetError
                      else parse_set_items negate rest' ((code1, code2) :: acc) (3 + n)
                  end
            | _ =>
                if head_is "-" rest then SetError
                else parse_set_items negate rest ((code1, code1) :: acc) (S n)
            end
        end
  end.

(** What follows an opening bracket. *)
Definition parse_set (toks : list token) : set_result :=
  if head_is "^" toks then parse_set_items true (tl toks) [] 1
  else parse_set_items false toks [] 0.

(** *** The parser

    One frame per group that is open: the alternatives already closed by
    a bar and the items of the one being read (both latest first). *)
Record frame : Type := mkFrame {
  fr_group : option nat;
  fr_alts : list regex;
  fr_items : list regex
}.

Definition top_frame : frame := mkFrame None [] [].

Definition push (r : regex) (f : frame) : frame :=
  mkFrame (fr_group f) (fr_alts f) (r :: fr_items f).

Definition next_branch (f : frame) : frame :=
  mkFrame (fr_group f) (sequence (rev (fr_items f)) :: fr_alts f) [].

Definition close (f : frame) : regex :=
  match rev (sequence (rev (fr_items f)) :: fr_alts f) with
  | [] => Eps
  | first :: others => branches first others
  end.

(** A quantifier applies to the item before it: "nothing to repeat" when
    there is none or it is an anchor, "multiple repeat" when it is a
    repeat already. *)
Definition repeat_last (min : nat) (max : option nat) (f : frame) : option frame :=
  match fr_items f with
  | [] => None
  | AtBeginning :: _ => None
  | AtEnd :: _ => None
  | MaxRepeat _ _ _ :: _ => None
  | item :: items =>
      Some (mkFrame (fr_group f) (fr_alts f) (MaxRepeat min max item :: items))
  end.

(** A [?] or [+] after a quantifier makes it lazy or possessive. *)
Definition lazy_or_possessive (toks : list token) : bool :=
  head_is "?" toks || head_is "+" toks.

(** [skip] tokens have been read ahead already; [groups] counts the
    capturing groups opened so far; [bad]: a lone backslash follows the
    tokens. *)
Fixpoint parse_tokens (bad : bool) (toks : list token) (skip : nat) (cur : frame)
         (stack : list frame) (groups : nat) : result (regex * nat) :=
  match toks with
  | [] =>
      if bad then Raise re_error          (* bad escape (end of pattern) *)
      else
        match stack with
        | [] => Ret (close cur, groups)
        | _ :: _ => Raise re_error        (* missing ) *)
        end
  | t :: rest =>
      match skip with
      | S skip' => parse_tokens bad rest skip' cur stack groups
      | 0 =>
          match t with
          | TEsc c =>
              if is_alnum c then Unmodelled
              else parse_tokens bad rest 0 (push (Literal c) cur) stack groups
          | TChar c =>
              if chr_eqb c "." then
                parse_tokens bad rest 0 (push Any cur) stack groups
              else if chr_eqb c "^" then
                parse_tokens bad rest 0 (push AtBeginning cur) stack groups
              else if chr_eqb c "$" then
                parse_tokens bad rest 0 (push AtEnd cur) stack groups
              else if chr_eqb c "|" then
                parse_tokens bad rest 0 (next_branch cur) stack groups
              else if chr_eqb c "(" then
                if head_is "?" rest then
                  if head_is ":" (tl rest)
                  then parse_tokens bad rest 2 (mkFrame None [] []) (cur :: stack) groups
                  else Unmodelled
                else
                  parse_tokens bad rest 0 (mkFrame (Some groups) [] [])
                               (cur :: stack) (S groups)
              else if chr_eqb c ")" then
                match stack with
                | [] => Raise re_error      (* unbalanced parenthesis *)
                | parent :: stack' =>
                    parse_tokens bad rest 0
                      (push (SubPattern (fr_group cur) (close cur)) parent)
                      stack' groups
                end
              else if chr_eqb c "[" then
                match parse_set rest with
                | SetOk item n => parse_tokens bad rest n (push item cur) stack groups
                | SetError => Raise re_error
                | SetUnmodelled => Unmodelled
                end
              else if chr_eqb c "*" || chr_eqb c "+" || chr_eqb c "?" then
                let min := if chr_eqb c "+" then 1 else 0 in
                let max := if chr_eqb c "?" then Some 1 else None in
                match repeat_last min max cur with
                | None => Raise re_error
                | Some cur' =>
                    if lazy_or_possessive rest then Unmodelled
                    else parse_tokens bad rest 0 cur' stack groups
                end
              else if chr_eqb c "{" then
                match parse_braces bad rest with
                | BrLiteral => parse_tokens bad rest 0 (push (Literal c) cur) stack groups
                | BrError => Raise re_error
                | BrOverflow => Raise OverflowError
                | BrRepeat min max n =>
                    match repeat_last min max cur with
                    | None => Raise re_error
                    | Some cur' =>
                        if lazy_or_possessive (skipn n rest) then Unmodelled
                        else parse_tokens bad rest n cur' stack groups
                    end
                end
              else parse_tokens bad rest 0 (push (Literal c) cur) stack groups
          end
      end
  end.

(** [re.compile(pattern)]: the parsed pattern and its number of groups. *)
Definition compile (pattern : str) : result (regex * nat) :=
  parse_tokens (bad_escape pattern) (tokenize pattern) 0 top_frame [] 0.

(** *** The matcher

    A backtracking matcher in the order of [sre]: the first alternative
    first, a repeat as often as it can.  [marks] holds the text of each
    group ([None]: the group took no part); [k] is what remains to be
    matched. *)
Definition marks := list (option str).

Fixpoint set_mark (i : nat) (text : str) (ms : marks) : marks :=
  match ms, i with
  | [], _ => []
  | _ :: ms', 0 => Some text :: ms'
  | m :: ms', S i' => m :: set_mark i' text ms'
  end.

Definition in_ranges (c : ascii) (ranges : list (ascii * ascii)) : bool :=
  existsb (fun r => between (nat_of_ascii (fst r)) (nat_of_ascii (snd r)) c) ranges.

Definition below (max : option nat) (count : nat) : bool :=
  match max with
  | Some n => count <? n
  | None => true
  end.

Definition same_ptr (last_ptr : option nat) (ptr : nat) : bool :=
  match last_ptr with
  | Some p => p =? ptr
  | None => false
  end.

(** A greedy repeat of [body], followed by [k]: [count] is the number of
    iterations done and [last_ptr] the position at which the previous
    optional iteration began (a repeat whose body matched the empty string
    there is not entered again).  A position is given by what remains of the
    subject.  The fuel given by [run] is never used up. *)
Section Repeat.
Variable body : str -> marks -> (str -> marks -> option marks) -> option marks.
Variables (min : nat) (max : option nat).
Variable k : str -> marks -> option marks.

Fixpoint until (fuel count : nat) (last_ptr : option nat) (s : str) (ms : marks)
  : option marks :=
  match fuel with
  | 0 => None
  | S fuel' =>
      if count <? min then
        body s ms (fun s' ms' => until fuel' (S count) last_ptr s' ms')
      else if below max count && negb (same_ptr last_ptr (length s)) then
        match body s ms (fun s' ms' => until fuel' (S count) (Some (length s)) s' ms')
        with
        | Some res => Some res
        | None => k s ms
        end
      else k s ms
  end.
End Repeat.

(** [len] is the length of the whole subject. *)
Fixpoint run (len : nat) (r : regex) (s : str) (ms : marks)
         (k : str -> marks -> option marks) {struct r} : option marks :=
  match r with
  | Eps => k s ms
  | Literal c =>
      match s with
      | x :: s' => if chr_eqb x c then k s' ms else None
      | [] => None
      end
  | Any =>
      match s with
      | x :: s' => if chr_eqb x newline then None else k s' ms
      | [] => None
      end
  | In negate ranges =>
      match s with
      | x :: s' => if xorb negate (in_ranges x ranges) then k s' ms else None
      | [] => None
      end
  | AtBeginning => if length s =? len then k s ms else None
  | AtEnd =>
      match s with
      | [] => k s ms
      | [x] => if chr_eqb x newline then k s ms else None
      | _ => None
      end
  | Cat r1 r2 => run len r1 s ms (fun s' ms' => run len r2 s' ms' k)
  | Branch r1 r2 =>
      match run len r1 s ms k with
      | Some res => Some res
      | None => run len r2 s ms k
      end
  | MaxRepeat min max body =>
      until (run len body) min max k (min + length s + 2) 0 None s ms
  | SubPattern group body =>
      run len body s ms
          (fun s' ms' =>
             k s' match group with
                  | Some i => set_mark i (firstn (length s - length s') s) ms'
                  | None => ms'
                  end)
  end.

Definition at_end (s : str) (ms : marks) : option marks :=
  match s with
  | [] => Some ms
  | _ :: _ => None
  end.

(** [re.fullmatch(pattern, string)]: [None] when there is no match,
    otherwise the match object, given by its [groups()]. *)
Definition fullmatch (pattern string : str) : result (option marks) :=
  compiled <- compile pattern;;
  let '(r, groups) := compiled in
  Ret (run (length string) r string (repeat None groups) at_end).
End re.

(** ** [str.format] with positional arguments

    [format_string.format( *args )].  Covered: [{{], [}}], the replacement
    fields [{}] and [{N}], and a field with any other name (a keyword, which
    is missing here).  A conversion, a format specification, an attribute or
    an index in a field is [Unmodelled]. *)
Module str_format.

(** The state of automatic field numbering. *)
Inductive auto_number : Type :=
| ANS_INIT
| ANS_AUTO (an_field_number : N)
| ANS_MANUAL.

Inductive field : Type :=
| FieldName (name : str) (consumed : nat)
| FieldError
| FieldUnmodelled.

(** The field name after an opening brace, up to the closing brace;
    [consumed] counts the characters with the closing brace. *)
Fixpoint parse_field (s : str) (name : str) (n : nat) : field :=
  match s with
  | [] => FieldError                         (* expected '}' before end of string *)
  | c :: rest =>
      if chr_eqb c "}" then FieldName (rev name) (S n)
      else if chr_eqb c "{" then FieldError  (* unexpected '{' in field name *)
      else if chr_in c ":![" then FieldUnmodelled
      else parse_field rest (c :: name) (S n)
  end.

Definition PY_SSIZE_T_MAX : N := 9223372036854775807.

Definition getitem (args : list str) (i : N) : result str :=
  if (i <? N.of_nat (length args))%N then
    match nth_error args (N.to_nat i) with
    | Some v => Ret v
    | None => Raise IndexError
    end
  else Raise IndexError.            (* Replacement index out of range *)

Inductive integer : Type :=
| Integer (i : N)
| NotInteger
| TooManyDigits.

(** [get_integer]: the digits are read from the left, and too many of them
    are noticed before a character after them that is no digit. *)
Fixpoint get_integer_from (s : str) (accumulator : N) : integer :=
  match s with
  | [] => Integer accumulator
  | c :: rest =>
      if re.is_digit c then
        if ((PY_SSIZE_T_MAX - re.digit_value c) / 10 <? accumulator)%N
        then TooManyDigits
        else get_integer_from rest (accumulator * 10 + re.digit_value c)%N
      else NotInteger
  end.

Definition get_integer (s : str) : integer :=
  match s with
  | [] => NotInteger
  | _ :: _ => get_integer_from s 0%N
  end.

(** The value of a field and the next numbering state. *)
Definition get_field (name : str) (args : list str) (an : auto_number)
  : result (str * auto_number) :=
  if chr_in "." name then Unmodelled
  else
    match name with
    | [] =>
        match an with
        | ANS_INIT => v <- getitem args 0%N;; Ret (v, ANS_AUTO 1%N)
        | ANS_AUTO i => v <- getitem args i;; Ret (v, ANS_AUTO (N.succ i))
        | ANS_MANUAL => Raise ValueError   (* cannot switch to automatic numbering *)
        end
    | _ :: _ =>
        match get_integer name with
        | TooManyDigits => Raise ValueError    (* Too many decimal digits *)
        | Integer i =>
            match an with
            | ANS_AUTO _ => Raise ValueError   (* cannot switch to manual numbering *)
            | _ => v <- getitem args i;; Ret (v, ANS_MANUAL)
            end
        | NotInteger => Raise (KeyError name)
        end
    end.

Fixpoint format_from (s : str) (skip : nat) (args : list str) (an : auto_number)
  : result str :=
  match s with
  | [] => Ret []
  | c :: rest =>
      match skip with
      | S skip' => format_from rest skip' args an
      | 0 =>
          if chr_eqb c "}" then
            match rest with
            | [] => Raise ValueError         (* Single '}' encountered *)
            | d :: _ =>
                if chr_eqb d "}"
                then out <- format_from rest 1 args an;; Ret (c :: out)
                else Raise ValueError        (* Single '}' encountered *)
            end
          else if chr_eqb c "{" then
            match rest with
            | [] => Raise ValueError         (* Single '{' encountered *)
            | d :: _ =>
                if chr_eqb d "{"
                then out <- format_from rest 1 args an;; Ret (c :: out)
                else
                  match parse_field rest [] 0 with
                  | FieldError => Raise ValueError
                  | FieldUnmodelled => Unmodelled
                  | FieldName name n =>
                      got <- get_field name args an;;
                      out <- format_from rest n args (snd got);;
                      Ret (fst got ++ out)
                  end
            end
          else out <- format_from rest 0 args an;; Ret (c :: out)
      end
  end.

Definition format (format_string : str) (args : list str) : result str :=
  format_from format_string 0 args ANS_INIT.
End str_format.

(** ** [configparser.ConfigParser]

    The parser holds its sections in the order of the file, each a list of
    options with their raw values, and the defaults.  Reading the text of a
    file into sections is not modelled: a file is given by the options of
    its [DEFAULT] section, taken to come first, and by its other sections,
    with the names and the values of the options as the parser keeps
    them. *)
Module configparser.

Definition options := list (str * str).

Record ConfigParser : Type := mkConfigParser {
  cp_defaults : options;
  cp_sections : list (str * options)
}.

(** What is found under a file name.  A file that can be read is given by
    the options under its [[DEFAULT]] header and by its other sections in
    the order of the file, each option as the parser keeps it: the name in
    lower case and the value, both without the white space around them. *)
Inductive file_state : Type :=
| NoFile                                     (* cannot be opened *)
| BadFile                                    (* cannot be parsed *)
| File (default_section : options) (sections : list (str * options))
| Undecodable.                               (* is no text in its encoding *)

(** [configparser.DEFAULTSECT] *)
Definition DEFAULTSECT : str := "DEFAULT".

(** The names a header can give to a section of the parser: what is
    between the brackets of a line, which is not empty and has no line
    break in it; the options under the header [[DEFAULT]] go to the defaults
    and the parser has no section of this name. *)
Definition section_name_ok (name : str) : bool :=
  negb (str_eqb name DEFAULTSECT) && (1 <=? length name)
  && negb (chr_in (ascii_of_nat 10) name) && negb (chr_in (ascii_of_nat 13) name).

Fixpoint lookup {V : Type} (key : str) (d : list (str * V)) : option V :=
  match d with
  | [] => None
  | (k, v) :: d' => if str_eqb k key then Some v else lookup key d'
  end.

(** [str.lower], which is [optionxform]. *)
Definition lower_chr (c : ascii) : ascii :=
  if re.between 65 90 c
     || (re.between 192 222 c && negb (nat_of_ascii c =? 215))
  then ascii_of_nat (nat_of_ascii c + 32) else c.

Definition lower (s : str) : str := map lower_chr s.

(** [str.isspace] *)
Definition is_space (c : ascii) : bool :=
  existsb (Nat.eqb (nat_of_ascii c)) [9; 10; 11; 12; 13; 28; 29; 30; 31; 32; 133; 160].

(** [s.strip() == s] *)
Definition stripped (s : str) : bool :=
  match s with
  | [] => true
  | c :: _ => negb (is_space c) && negb (is_space (last s c))
  end.

Definition one_line (s : str) : bool :=
  negb (chr_in (ascii_of_nat 10) s) && negb (chr_in (ascii_of_nat 13) s).

(** Names and values that a line [name = value] or [name: value] of a file
    gives to an option.  (A value that goes on over several lines is not
    covered.) *)
Definition option_name_ok (name : str) : bool :=
  (1 <=? length name) && str_eqb (lower name) name && stripped name && one_line name
  && negb (chr_in "=" name) && negb (chr_in ":" name)
  && negb (chr_in (hd " "%char name) "#;[").

Definition option_value_ok (value : str) : bool := stripped value && one_line value.

Definition options_ok (opts : options) : bool :=
  forallb (fun o => option_name_ok (fst o) && option_value_ok (snd o)) opts.

Fixpoint first_duplicate (seen keys : list str) : option str :=
  match keys with
  | [] => None
  | k :: keys' =>
      if existsb (str_eqb k) seen then Some k
      else first_duplicate (k :: seen) keys'
  end.

(** The strict parser refuses a section or an option that comes twice.
    Sections that no file gives are not covered. *)
Fixpoint check_strict (seen : list str) (sections : list (str * options))
  : result unit :=
  match sections with
  | [] => Ret tt
  | (name, opts) :: sections' =>
      if negb (section_name_ok name && options_ok opts) then Unmodelled
      else if existsb (str_eqb name) seen then Raise (DuplicateSectionError name)
      else
        match first_duplicate [] (map fst opts) with
        | Some o => Raise (DuplicateOptionError name o)
        | None => check_strict (name :: seen) sections'
        end
  end.

(** [parser.read(filename)]: the parser after the call and the list of
    the files read. *)
Definition read (parser : ConfigParser) (fs : str -> file_state) (filename : str)
  : result (ConfigParser * list str) :=
  match fs filename with
  | NoFile => Ret (parser, [])
  | Undecodable => Raise UnicodeDecodeError
  | BadFile => Raise ParsingError
  | File default_section sections =>
      match first_duplicate [] (map fst default_section) with
      | Some o => Raise (DuplicateOptionError DEFAULTSECT o)
      | None =>
          _ <- check_strict [] sections;;
          if options_ok default_section then
            Ret (mkConfigParser (default_section ++ cp_defaults parser)
                                (cp_sections parser ++ sections),
                 [filename])
          else Unmodelled
      end
  end.

(** [parser.sections()] *)
Definition sections (parser : ConfigParser) : list str :=
  map fst (cp_sections parser).

Definition MAX_INTERPOLATION_DEPTH : nat := 10.

(** [_KEYCRE.match] on what follows the opening parenthesis of a
    reference: the name, and the characters consumed from the parenthesis
    to the closing [)s]. *)
Fixpoint key_reference (s : str) (name : str) (n : nat) : option (str * nat) :=
  match s with
  | [] => None
  | c :: rest =>
      if chr_eqb c ")" then
        match name, rest with
        | _ :: _, "s"%char :: _ => Some (rev name, n + 3)
        | _, _ => None
        end
      else key_reference rest (c :: name) (S n)
  end.

(** [BasicInterpolation._interpolate_some], entered with [depth =
    MAX_INTERPOLATION_DEPTH + 1 - fuel]. *)
Fixpoint interpolate_some (fuel : nat) (option section : str) (map : options)
         (value : str) {struct fuel} : result str :=
  match fuel with
  | 0 => Raise (InterpolationDepthError option section)
  | S fuel' =>
      (fix scan (rest : str) (skip : nat) {struct rest} : result str :=
         match rest with
         | [] => Ret []
         | c :: rest' =>
             match skip with
             | S skip' => scan rest' skip'
             | 0 =>
                 if chr_eqb c "%" then
                   match rest' with
                   | "%"%char :: _ => out <- scan rest' 1;; Ret (c :: out)
                   | "("%char :: rest'' =>
                       match key_reference rest'' [] 0 with
                       | None => Raise (InterpolationSyntaxError option section)
                       | Some (name, n) =>
                           match lookup (lower name) map with
                           | None =>
                               Raise (InterpolationMissingOptionError
                                        option section (lower name))
                           | Some v =>
                               expanded <-
                                 (if chr_in "%" v
                                  then interpolate_some fuel' option section map v
                                  else Ret v);;
                               out <- scan rest' n;;
                               Ret (expanded ++ out)
                           end
                       end
                   | _ => Raise (InterpolationSyntaxError option section)
                   end
                 else out <- scan rest' 0;; Ret (c :: out)
             end
         end) value 0
  end.

(** [parser.get(section, option)] *)
Definition get (parser : ConfigParser) (section option : str) : result str :=
  match lookup section (cp_sections parser) with
  | None => Raise (NoSectionError section)
  | Some opts =>
      let d := opts ++ cp_defaults parser in
      match lookup (lower option) d with
      | None => Raise (NoOptionError (lower option) section)
      | Some value =>
          interpolate_some MAX_INTERPOLATION_DEPTH (lower option) section d value
      end
  end.
End configparser.

(** ** The collaborators of the backend *)
Module pathutils.

Fixpoint lstrip (c : ascii) (s : str) : str :=
  match s with
  | x :: s' => if chr_eqb x c then lstrip c s' else s
  | [] => []
  end.

Definition rstrip (c : ascii) (s : str) : str := rev (lstrip c (rev s)).

(** Modelled from the spec: [pathutils.strip_path], which is not part of
    the sources at hand.  "Leading and trailing path separators are
    stripped (no other normalization -- no case folding, no dot-segment
    resolution)." *)
Definition strip_path (path : str) : str := rstrip "/" (lstrip "/" path).
End pathutils.

Module rights.

(** Modelled from the spec: [rights.intersect_permissions], which is not
    part of the sources at hand.  A permission string is "treated as a set
    of single-character symbols; intersection of two permission sets is set
    intersection over these symbols, order-independent, duplicates
    collapse".  The order of the symbols in the result has no meaning. *)
Definition intersect_permissions (a b : str) : str :=
  nodup ascii_dec (filter (fun c => chr_in c b) a).
End rights.

(** ** [radicale.rights.from_file.Rights] *)

Record Rights : Type := mkRights { _filename : str }.

(** [Rights.__init__(configuration)]: the name of the rights file is the
    value of the option [file] in the section [rights] of the configuration
    of the server; [configuration] stands for its [get].  The constructor of
    the base class keeps the configuration, which [authorized] does not
    use. *)
Definition __init__ (configuration : str -> str -> str) : Rights :=
  mkRights (configuration "rights" "file").

(** [*map(re.escape, user_match.groups())]: a group that took no part in the
    match is [None], which [re.escape] refuses. *)
Fixpoint map_escape (groups : re.marks) : result (list str) :=
  match groups with
  | [] => Ret []
  | Some text :: groups' => rest <- map_escape groups';; Ret (re.escape text :: rest)
  | None :: _ => Raise TypeError
  end.

(** The two matches of one section (lines 65-70); the second is falsy when
    the first is. *)
Definition match_section (rights_config : configparser.ConfigParser)
           (section user sane_path : str) : result (option re.marks * option re.marks) :=
  user_pattern <- configparser.get rights_config section "user";;
  collection_pattern <- configparser.get rights_config section "collection";;
  user_match <- re.fullmatch user_pattern user;;
  collection_match <-
    match user_match with
    | None => Ret None
    | Some groups =>
        args <- map_escape groups;;
        pattern <- str_format.format collection_pattern args;;
        re.fullmatch pattern sane_path
    end;;
  Ret (user_match, collection_match).

Definition truthy {A : Type} (m : option A) : bool :=
  match m with
  | Some _ => true
  | None => false
  end.

(** The loop over the sections (lines 63-84). *)
Fixpoint for_sections (self : Rights) (rights_config : configparser.ConfigParser)
         (sections : list str) (user sane_path permissions : str) : result str :=
  match sections with
  | [] => Ret ("" : str)
  | section :: sections' =>
      matches <-
        try_except (match_section rights_config section user sane_path)
                   (fun e => Raise (RuntimeError_section section (_filename self) e));;
      if truthy (fst matches) && truthy (snd matches) then
        declared <- configparser.get rights_config section "permissions";;
        Ret (rights.intersect_permissions permissions declared)
      else for_sections self rights_config sections' user sane_path permissions
  end.

(** The parser with the rights file read into it (lines 54-62). *)
Definition load (self : Rights) (fs : str -> configparser.file_state)
           (user_escaped sane_path_escaped : str) : result configparser.ConfigParser :=
  let rights_config :=
    configparser.mkConfigParser
      [("login" : str, user_escaped); ("path" : str, sane_path_escaped)] [] in
  try_except
    (loaded <- configparser.read rights_config fs (_filename self);;
     match snd loaded with
     | [] => Raise (RuntimeError_no_such_file (_filename self))
     | _ :: _ => Ret (fst loaded)
     end)
    (fun e => Raise (RuntimeError_load (_filename self) e)).

(** [user or ""] *)
Definition or_empty (user : option str) : str :=
  match user with
  | Some ((_ :: _) as u) => u
  | _ => []
  end.

(** [Rights.authorized(user, path, permissions)]; [fs] is the file system
    the rights file is read from.  The calls to the logger are left out. *)
Definition authorized (self : Rights) (fs : str -> configparser.file_state)
           (user : option str) (path permissions : str) : result str :=
  let user := or_empty user in
  let sane_path := pathutils.strip_path path in
  let user_escaped := re.escape user in
  let sane_path_escaped := re.escape sane_path in
  rights_config <- load self fs user_escaped sane_path_escaped;;
  for_sections self rights_config (configparser.sections rights_config)
               user sane_path permissions.

(** * Vocabulary of the properties *)

(** ** Sections

    The parser [authorized] works with, the verdict of one section (line
    74), and the sections the loop gets to. *)

Definition rights_config_of (self : Rights) (fs : str -> configparser.file_state)
           (user : option str) (path : str) : result configparser.ConfigParser :=
  load self fs (re.escape (or_empty user)) (re.escape (pathutils.strip_path path)).

Definition section_matches (rights_config : configparser.ConfigParser)
           (section user sane_path : str) : result bool :=
  matches <- match_section rights_config section user sane_path;;
  Ret (truthy (fst matches) && truthy (snd matches)).

(** Section number [i] (from 0) is [section], and no section before it
    matches or fails. *)
Definition reaches (rights_config : configparser.ConfigParser)
           (user sane_path : str) (i : nat) (section : str) : Prop :=
  nth_error (configparser.sections rights_config) i = Some section /\
  Forall (fun earlier => section_matches rights_config earlier user sane_path = Ret false)
         (firstn i (configparser.sections rights_config)).

(** The resource pattern of a section once the groups of the user match are
    put in (lines 69-70). *)
Definition instantiate (collection_pattern : str) (groups : re.marks) : result str :=
  args <- map_escape groups;;
  str_format.format collection_pattern args.

(** A resource pattern is malformed for the groups of a user match when
    putting the groups in fails (a placeholder without a group), or when
    what comes out is no regular expression. *)
Inductive malformed (collection_pattern : str) (groups : re.marks) : exn -> Prop :=
| malformed_template e :
    instantiate collection_pattern groups = Raise e ->
    malformed collection_pattern groups e
| malformed_regex pattern e :
    instantiate collection_pattern groups = Ret pattern ->
    re.compile pattern = Raise e ->
    malformed collection_pattern groups e.

(** The section is there and has no value for the key, of its own or from
    the defaults. *)
Definition missing_key (rights_config : configparser.ConfigParser)
           (section key : str) : Prop :=
  exists opts,
    configparser.lookup section (configparser.cp_sections rights_config) = Some opts /\
    configparser.lookup key (opts ++ configparser.cp_defaults rights_config) = None.

(** ** Templates

    A template as the spec has it: text without braces, and positional
    placeholders written as a brace, a decimal number, a brace. *)
Inductive piece : Type :=
| Text (s : str)
| Placeholder (digits : str).

Definition render_piece (p : piece) : str :=
  match p with
  | Text s => s
  | Placeholder digits => "{"%char :: digits ++ ["}"%char]
  end.

Definition render (template : list piece) : str := flat_map render_piece template.

Definition plain_piece (p : piece) : bool :=
  match p with
  | Text s => negb (chr_in "{" s) && negb (chr_in "}" s)
  | Placeholder digits =>
      negb (length digits =? 0) && forallb re.is_digit digits
      && (re.int_of_digits digits <=? str_format.PY_SSIZE_T_MAX)%N
  end.

(** The substitution in the words of the spec: every placeholder [{N}] is
    replaced by the text for group [N]; there is no result when a group is
    referenced that does not exist. *)
Fixpoint substitute (template : list piece) (texts : list str) : option str :=
  match template with
  | [] => Some []
  | Text s :: template' => option_map (app s) (substitute template' texts)
  | Placeholder digits :: template' =>
      match nth_error texts (N.to_nat (re.int_of_digits digits)),
            substitute template' texts with
      | Some text, Some out => Some (text ++ out)
      | _, _ => None
      end
  end.

(** ** Escaped text

    The token [re.escape] makes of a character. *)
Definition escaped_token (c : ascii) : re.token :=
  if chr_in c re.special_chars then re.TEsc c else re.TChar c.

(** The frame after the literals of [text] have been read. *)
Definition push_literals (text : str) (f : re.frame) : re.frame :=
  re.mkFrame (re.fr_group f) (re.fr_alts f)
             (rev (map re.Literal text) ++ re.fr_items f).

(** What remains of [s] after [text]. *)
Fixpoint after_prefix (text s : str) : option str :=
  match text, s with
  | [], _ => Some s
  | c :: text', x :: s' => if chr_eqb x c then after_prefix text' s' else None
  | _ :: _, [] => None
  end.

(** ** Full match

    What it is for a pattern to match: [spans len r s s'] says that [r]
    matches the subject from the position where [s] remains to the position
    where [s'] remains ([len] is the length of the whole subject, for the
    anchors). *)
Inductive spans (len : nat) : re.regex -> str -> str -> Prop :=
| span_eps s : spans len re.Eps s s
| span_literal c s : spans len (re.Literal c) (c :: s) s
| span_any c s : c <> re.newline -> spans len re.Any (c :: s) s
| span_in negate ranges c s :
    xorb negate (re.in_ranges c ranges) = true ->
    spans len (re.In negate ranges) (c :: s) s
| span_at_beginning s : length s = len -> spans len re.AtBeginning s s
| span_at_end s : s = [] \/ s = [re.newline] -> spans len re.AtEnd s s
| span_cat r1 r2 s s1 s2 :
    spans len r1 s s1 -> spans len r2 s1 s2 -> spans len (re.Cat r1 r2) s s2
| span_branch_first r1 r2 s s' :
    spans len r1 s s' -> spans len (re.Branch r1 r2) s s'
| span_branch_second r1 r2 s s' :
    spans len r2 s s' -> spans len (re.Branch r1 r2) s s'
| span_repeat min max r n s s' :
    min <= n -> (forall m, max = Some m -> n <= m) ->
    spans_times len n r s s' ->
    spans len (re.MaxRepeat min max r) s s'
| span_subpattern group r s s' :
    spans len r s s' -> spans len (re.SubPattern group r) s s'
with spans_times (len : nat) : nat -> re.regex -> str -> str -> Prop :=
| times_zero r s : spans_times len 0 r s s
| times_succ n r s s1 s2 :
    spans len r s s1 -> spans_times len n r s1 s2 ->
    spans_times len (S n) r s s2.

(** The bounds of every repeat are in order, as the parser leaves them. *)
Fixpoint well_formed (r : re.regex) : bool :=
  match r with
  | re.Cat r1 r2 => well_formed r1 && well_formed r2
  | re.Branch r1 r2 => well_formed r1 && well_formed r2
  | re.MaxRepeat min max body =>
      match max with
      | Some m => min <=? m
      | None => true
      end && well_formed body
  | re.SubPattern _ body => well_formed body
  | _ => true
  end.

Definition all_well_formed (rs : list re.regex) : Prop :=
  Forall (fun r => well_formed r = true) rs.

Definition frame_ok (f : re.frame) : Prop :=
  all_well_formed (re.fr_alts f) /\ all_well_formed (re.fr_items f).

(** The pattern matches the string from its first character to its last. *)
Definition matches_whole (pattern string : str) : Prop :=
  exists r groups,
    re.compile pattern = Ret (r, groups) /\ spans (length string) r string [].

(** ** Subtrees *)

Definition newline_free (s : str) : bool :=
  forallb (fun c => negb (chr_eqb c re.newline)) s.

(** No optional iteration began where [s] remains. *)
Definition fresh (last_ptr : option nat) (s : str) : Prop :=
  forall p, last_ptr = Some p -> length s < p.

(** ** Fuel

    Two continuations that agree on what remains after [n] characters or
    fewer. *)
Definition agree_below (n : nat) (k1 k2 : str -> re.marks -> option re.marks) : Prop :=
  forall s ms, length s <= n -> k1 s ms = k2 s ms.

(** A matcher that hands to its continuation a part of what it was given. *)
Definition looks_ahead_only
  (body : str -> re.marks -> (str -> re.marks -> option re.marks) -> option re.marks)
  : Prop :=
  forall s ms k1 k2, agree_below (length s) k1 k2 -> body s ms k1 = body s ms k2.

(** The iterations a repeat can still make. *)
Definition iterations_left (min count : nat) (last_ptr : option nat) (s : str) : nat :=
  (min - count) + length s + (if re.same_ptr last_ptr (length s) then 0 else 1) + 1.

(** ** A section after its user pattern

    What is left to decide for a section whose user pattern has matched
    without groups: the resource pattern, with no text to put in. *)
Definition collection_alone (collection_pattern sane_path : str) : result bool :=
  pattern <- str_format.format collection_pattern [];;
  collection_match <- re.fullmatch pattern sane_path;;
  Ret (truthy collection_match).

(** ** Exceptions and the names of the sections

    The exceptions of [configparser.get]. *)
Definition configparser_error (e : exn) : bool :=
  match e with
  | NoSectionError _ | NoOptionError _ _
  | InterpolationSyntaxError _ _ | InterpolationMissingOptionError _ _ _
  | InterpolationDepthError _ _ => true
  | _ => false
  end.

(** The exception with another section in its message. *)
Definition resection (section : str) (e : exn) : exn :=
  match e with
  | NoSectionError _ => NoSectionError section
  | NoOptionError option _ => NoOptionError option section
  | InterpolationSyntaxError option _ => InterpolationSyntaxError option section
  | InterpolationMissingOptionError option _ var =>
      InterpolationMissingOptionError option section var
  | InterpolationDepthError option _ => InterpolationDepthError option section
  | _ => e
  end.

(** Two calls of [configparser] that differ in the name of the section
    only. *)
Definition same_but_section {A : Type} (section' : str) (r r' : result A) : Prop :=
  match r, r' with
  | Ret a, Ret a' => a = a'
  | Raise e, Raise e' => configparser_error e = true /\ e' = resection section' e
  | _, _ => False
  end.

(** The exception with the names of the sections taken out of its
    message. *)
Fixpoint anonymous (e : exn) : exn :=
  match e with
  | NoSectionError _ => NoSectionError []
  | NoOptionError option _ => NoOptionError option []
  | DuplicateSectionError _ => DuplicateSectionError []
  | DuplicateOptionError _ option => DuplicateOptionError [] option
  | InterpolationSyntaxError option _ => InterpolationSyntaxError option []
  | InterpolationMissingOptionError option _ var =>
      InterpolationMissingOptionError option [] var
  | InterpolationDepthError option _ => InterpolationDepthError option []
  | RuntimeError_load filename cause => RuntimeError_load filename (anonymous cause)
  | RuntimeError_section _ filename cause =>
      RuntimeError_section [] filename (anonymous cause)
  | _ => e
  end.

Definition without_names {A : Type} (r : result A) : result A :=
  match r with
  | Raise e => Raise (anonymous e)
  | _ => r
  end.

(** The sections of a file under other names. *)
Definition rename_sections (rename : str -> str) (sections : list (str * configparser.options))
  : list (str * configparser.options) :=
  map (fun s => (rename (fst s), snd s)) sections.

(** What the first matching section declares, [None] when no section
    matches; the loop of [authorized] without the requested permissions. *)
Definition granted_from (permissions : str) (declared : option str) : str :=
  match declared with
  | Some declared => rights.intersect_permissions permissions declared
  | None => []
  end.

(** ** Rights files used as examples *)
Module Sample.

Definition backend : Rights := mkRights "/etc/radicale/rights".

Definition rule (name user collection permissions : string) : str * configparser.options :=
  (name : str,
   [("user" : str, user : str);
    ("collection" : str, collection : str);
    ("permissions" : str, permissions : str)]).

(** A file system that holds the rights file with these sections and
    nothing else. *)
Definition holding (sections : list (str * configparser.options))
  : str -> configparser.file_state :=
  fun filename =>
    if str_eqb filename (_filename backend) then configparser.File [] sections
    else configparser.NoFile.

(** Every user owns the collections under their own name; everybody may
    read the rest. *)
Definition owner_then_public : list (str * configparser.options) :=
  [rule "owner" "(.+)" "{0}(/.*)?" "rw";
   rule "public" ".*" ".*" "r"].

(** Everybody may read the shared collections; a section after it would
    let everybody write everywhere. *)
Definition shared_then_all : list (str * configparser.options) :=
  [rule "shared" ".*" "shared(/.*)?" "r";
   rule "all" ".*" ".*" "rw"].

(** The authenticated users may write, everybody may read. *)
Definition authenticated_then_anybody : list (str * configparser.options) :=
  [rule "authenticated" ".+" ".*" "rw";
   rule "anybody" ".*" ".*" "r"].

(** A section for the administrator whose resource pattern is no regular
    expression, before the section for everybody. *)
Definition broken_admin_then_public : list (str * configparser.options) :=
  [rule "admin" "admin" "(" "rw";
   rule "public" ".*" ".*" "r"].

(** A section whose user pattern is no regular expression. *)
Definition broken_user_pattern : list (str * configparser.options) :=
  [rule "staff" "staff-(.+" ".*" "rw";
   rule "public" ".*" ".*" "r"].

(** A user pattern with a group for one of its alternatives only. *)
Definition guest_or_named : list (str * configparser.options) :=
  [rule "people" "guest|user-(.+)" "public" "r"].

(** The same name for two sections. *)
Definition public_twice : list (str * configparser.options) :=
  [rule "public" ".*" "public" "r";
   rule "public" ".*" ".*" "r"].

(** Every user owns the collection named as they are. *)
Definition own_collection : list (str * configparser.options) :=
  [rule "own" ".*" "%(login)s" "rw"].
End Sample.

(** * Properties *)

(** ** [str.format] against the substitution of the spec *)

Lemma digit_is_no_markup c :
  re.is_digit c = true ->
  chr_eqb c "}" = false /\ chr_eqb c "{" = false /\
  chr_in c ":![" = false /\ chr_eqb "." c = false.
Proof.
  destruct c as [[] [] [] [] [] [] [] []]; vm_compute; intros H;
    try discriminate H; repeat split.
Qed.

Lemma format_from_skip pre rest args an :
  str_format.format_from (pre ++ rest) (length pre) args an
  = str_format.format_from rest 0 args an.
Proof.
  induction pre as [| c pre IH]; simpl; [| exact IH].
  destruct rest; reflexivity.
Qed.

Lemma format_from_text s rest args an :
  chr_in "{" s = false -> chr_in "}" s = false ->
  str_format.format_from (s ++ rest) 0 args an
  = (out <- str_format.format_from rest 0 args an;; Ret (s ++ out)).
Proof.
  induction s as [| c s IH]; simpl; intros Ho Hc.
  - destruct (str_format.format_from rest 0 args an); reflexivity.
  - apply orb_false_iff in Ho as [Ho1 Ho2]. apply orb_false_iff in Hc as [Hc1 Hc2].
    unfold chr_eqb in *. rewrite Ascii.eqb_sym in Ho1. rewrite Ascii.eqb_sym in Hc1.
    rewrite Ho1, Hc1. rewrite IH by assumption.
    destruct (str_format.format_from rest 0 args an); reflexivity.
Qed.

Lemma parse_field_digits digits rest name n :
  forallb re.is_digit digits = true ->
  str_format.parse_field (digits ++ "}"%char :: rest) name n
  = str_format.FieldName (rev name ++ digits) (n + length digits + 1).
Proof.
  revert name n. induction digits as [| c digits IH]; simpl; intros name n Hd.
  - rewrite app_nil_r. f_equal. lia.
  - apply andb_true_iff in Hd as [Hc Hd].
    destruct (digit_is_no_markup c Hc) as (H1 & H2 & H3 & _).
    rewrite H1, H2. change (chr_in c ":![") with (chr_in c (":![" : str)) in H3.
    unfold chr_in in H3. simpl in H3. unfold chr_in. simpl.
    rewrite H3. rewrite IH by exact Hd. simpl.
    rewrite <- app_assoc. f_equal. lia.
Qed.

Lemma getitem_nth_error args i :
  str_format.getitem args i
  = match nth_error args (N.to_nat i) with
    | Some v => Ret v
    | None => Raise IndexError
    end.
Proof.
  unfold str_format.getitem. destruct (N.ltb_spec i (N.of_nat (length args))) as [_ | H].
  - reflexivity.
  - replace (nth_error args (N.to_nat i)) with (@None str); [reflexivity |].
    symmetry. apply nth_error_None. lia.
Qed.

Lemma int_of_digits_from digits accumulator :
  (accumulator
   <= fold_left (fun acc c => 10 * acc + re.digit_value c) digits accumulator)%N.
Proof.
  revert accumulator. induction digits as [| c digits IH]; intros accumulator;
    cbn [fold_left].
  - lia.
  - specialize (IH (10 * accumulator + re.digit_value c)%N). lia.
Qed.

Lemma get_integer_from_digits digits accumulator :
  forallb re.is_digit digits = true ->
  (fold_left (fun acc c => 10 * acc + re.digit_value c) digits accumulator
   <= str_format.PY_SSIZE_T_MAX)%N ->
  str_format.get_integer_from digits accumulator
  = str_format.Integer
      (fold_left (fun acc c => 10 * acc + re.digit_value c)%N digits accumulator).
Proof.
  revert accumulator. induction digits as [| c digits IH]; intros accumulator;
    [reflexivity |].
  cbn [forallb fold_left str_format.get_integer_from].
  intros Hd Hmax. apply andb_true_iff in Hd as [Hc Hd]. rewrite Hc.
  pose proof (int_of_digits_from digits (10 * accumulator + re.digit_value c)) as Hle.
  destruct (N.ltb_spec ((str_format.PY_SSIZE_T_MAX - re.digit_value c) / 10) accumulator)
    as [Hover | _].
  - exfalso. apply N.lt_nge in Hover. apply Hover.
    apply N.div_le_lower_bound; lia.
  - rewrite (N.mul_comm accumulator 10). apply IH; assumption.
Qed.

Lemma get_field_digits digits args an :
  plain_piece (Placeholder digits) = true ->
  an <> str_format.ANS_AUTO 0%N -> (forall i, an <> str_format.ANS_AUTO i) ->
  str_format.get_field digits args an
  = (v <- str_format.getitem args (re.int_of_digits digits);;
     Ret (v, str_format.ANS_MANUAL)).
Proof.
  simpl. intros H _ Han.
  apply andb_true_iff in H as [H Hmax]. apply andb_true_iff in H as [Hne Hd].
  unfold str_format.get_field.
  assert (Hdot : chr_in "." digits = false).
  { clear Hne Hmax. induction digits as [| c digits IH]; [reflexivity |].
    simpl in Hd. apply andb_true_iff in Hd as [Hc Hd].
    unfold chr_in. simpl. destruct (digit_is_no_markup c Hc) as (_ & _ & _ & ->).
    apply IH, Hd. }
  rewrite Hdot. destruct digits as [| c digits]; [discriminate Hne |].
  apply N.leb_le in Hmax. unfold str_format.get_integer.
  rewrite (get_integer_from_digits _ _ Hd Hmax).
  destruct an as [| i |]; [reflexivity | destruct (Han i); reflexivity | reflexivity].
Qed.

Lemma format_from_open d rest args an :
  chr_eqb d "{" = false ->
  str_format.format_from ("{"%char :: d :: rest) 0 args an
  = match str_format.parse_field (d :: rest) [] 0 with
    | str_format.FieldError => Raise ValueError
    | str_format.FieldUnmodelled => Unmodelled
    | str_format.FieldName name n =>
        got <- str_format.get_field name args an;;
        out <- str_format.format_from (d :: rest) n args (snd got);;
        Ret (fst got ++ out)
    end.
Proof.
  intros H. simpl.
  change (chr_eqb "{" "}") with false. change (chr_eqb "{" "{") with true.
  cbv iota. rewrite H. reflexivity.
Qed.

Lemma format_from_render template args an :
  forallb plain_piece template = true ->
  (forall i, an <> str_format.ANS_AUTO i) ->
  str_format.format_from (render template) 0 args an
  = match substitute template args with
    | Some out => Ret out
    | None => Raise IndexError
    end.
Proof.
  revert an. induction template as [| p template IH]; intros an Hplain Han.
  - reflexivity.
  - simpl in Hplain. apply andb_true_iff in Hplain as [Hp Hplain].
    destruct p as [s | digits].
    + simpl in Hp. apply andb_true_iff in Hp as [Ho Hc].
      apply negb_true_iff in Ho. apply negb_true_iff in Hc.
      change (render (Text s :: template)) with (s ++ render template).
      rewrite format_from_text by assumption. rewrite (IH an Hplain Han). simpl.
      destruct (substitute template args); reflexivity.
    + pose proof Hp as Hp'. simpl in Hp'.
      apply andb_true_iff in Hp' as [Hp' _]. apply andb_true_iff in Hp' as [Hne Hd].
      destruct digits as [| d digits]; [discriminate Hne |].
      change (render (Placeholder (d :: digits) :: template))
        with (("{"%char :: (d :: digits) ++ ["}"%char]) ++ render template).
      rewrite <- app_comm_cons, <- app_assoc.
      change (["}"%char] ++ render template) with ("}"%char :: render template).
      pose proof Hd as Hd'. simpl in Hd'. apply andb_true_iff in Hd' as [Hdd _].
      destruct (digit_is_no_markup d Hdd) as (_ & Hopen & _ & _).
      rewrite <- app_comm_cons. rewrite format_from_open by exact Hopen.
      rewrite app_comm_cons.
      rewrite parse_field_digits by exact Hd.
      cbn [rev app]. rewrite (get_field_digits _ args an Hp (Han 0%N) Han).
      rewrite getitem_nth_error.
      cbn [substitute].
      destruct (nth_error args (N.to_nat (re.int_of_digits (d :: digits)))) as [v |];
        [| reflexivity].
      cbn [bind fst snd].
      replace (0 + length (d :: digits) + 1) with (length ((d :: digits) ++ ["}"%char]))
        by (rewrite length_app; simpl; lia).
      replace (d :: digits ++ "}"%char :: render template)
        with (((d :: digits) ++ ["}"%char]) ++ render template)
        by (rewrite <- app_assoc; reflexivity).
      rewrite format_from_skip.
      rewrite (IH str_format.ANS_MANUAL Hplain) by discriminate.
      destruct (substitute template args); reflexivity.
Qed.

(** [str.format] does to a plain template what the spec says. *)
Lemma format_render template args :
  forallb plain_piece template = true ->
  str_format.format (render template) args
  = match substitute template args with
    | Some out => Ret out
    | None => Raise IndexError
    end.
Proof.
  intros H. apply format_from_render; [exact H | discriminate].
Qed.

Lemma substitute_without_group template texts digits :
  In (Placeholder digits) template ->
  length texts <= N.to_nat (re.int_of_digits digits) ->
  substitute template texts = None.
Proof.
  intros Hin Hlen. induction template as [| p template IH]; [destruct Hin |].
  destruct Hin as [-> | Hin]; simpl.
  - apply nth_error_None in Hlen. rewrite Hlen. reflexivity.
  - rewrite (IH Hin). destruct p as [s | ds]; [reflexivity |].
    destruct (nth_error texts _); reflexivity.
Qed.


(** ** Escaped text is matched as it is *)

Lemma special_is_not_alnum c :
  chr_in c re.special_chars = true -> re.is_alnum c = false.
Proof.
  destruct c as [[] [] [] [] [] [] [] []]; vm_compute; intros H;
    try discriminate H; reflexivity.
Qed.

Lemma plain_is_no_operator c :
  chr_in c re.special_chars = false ->
  chr_eqb c "\" = false /\ chr_eqb c "." = false /\ chr_eqb c "^" = false /\
  chr_eqb c "$" = false /\ chr_eqb c "|" = false /\ chr_eqb c "(" = false /\
  chr_eqb c ")" = false /\ chr_eqb c "[" = false /\ chr_eqb c "*" = false /\
  chr_eqb c "+" = false /\ chr_eqb c "?" = false /\ chr_eqb c "{" = false.
Proof.
  destruct c as [[] [] [] [] [] [] [] []]; vm_compute; intros H;
    try discriminate H; repeat split.
Qed.

Lemma tokenize_app_escape text pattern :
  re.tokenize (re.escape text ++ pattern)
  = map escaped_token text ++ re.tokenize pattern.
Proof.
  induction text as [| c text IH]; simpl.
  - reflexivity.
  - unfold re.escape_chr, escaped_token.
    destruct (chr_in c re.special_chars) eqn:E; simpl.
    + change (chr_eqb "\" "\") with true. cbv iota.
      change (flat_map re.escape_chr text) with (re.escape text).
      rewrite IH. reflexivity.
    + destruct (plain_is_no_operator c E) as [-> _].
      change (flat_map re.escape_chr text) with (re.escape text).
      rewrite IH. reflexivity.
Qed.

Lemma bad_escape_app_escape text pattern :
  re.bad_escape (re.escape text ++ pattern) = re.bad_escape pattern.
Proof.
  induction text as [| c text IH]; simpl.
  - reflexivity.
  - unfold re.escape_chr.
    destruct (chr_in c re.special_chars) eqn:E; simpl.
    + change (chr_eqb "\" "\") with true. cbv iota. exact IH.
    + destruct (plain_is_no_operator c E) as [-> _]. exact IH.
Qed.

Lemma parse_tokens_escaped bad text toks cur stack groups :
  re.parse_tokens bad (map escaped_token text ++ toks) 0 cur stack groups
  = re.parse_tokens bad toks 0 (push_literals text cur) stack groups.
Proof.
  revert cur. induction text as [| c text IH]; intros cur.
  - destruct cur. reflexivity.
  - cbn [map app]. unfold escaped_token at 1.
    destruct (chr_in c re.special_chars) eqn:E.
    + cbn [re.parse_tokens]. rewrite (special_is_not_alnum c E).
      rewrite IH. unfold push_literals, re.push. cbn [map rev re.fr_group re.fr_alts re.fr_items].
      rewrite <- app_assoc. reflexivity.
    + destruct (plain_is_no_operator c E)
        as (_ & H1 & H2 & H3 & H4 & H5 & H6 & H7 & H8 & H9 & H10 & H11).
      cbn [re.parse_tokens].
      rewrite H1, H2, H3, H4, H5, H6, H7, H8, H9, H10, H11. cbn [orb].
      rewrite IH. unfold push_literals, re.push. cbn [map rev re.fr_group re.fr_alts re.fr_items].
      rewrite <- app_assoc. reflexivity.
Qed.

Lemma compile_escape text :
  re.compile (re.escape text) = Ret (re.sequence (map re.Literal text), 0).
Proof.
  unfold re.compile.
  rewrite <- (app_nil_r (re.escape text)), tokenize_app_escape, bad_escape_app_escape.
  cbn [re.tokenize re.bad_escape]. rewrite parse_tokens_escaped.
  cbn [re.parse_tokens]. unfold re.close, push_literals, re.top_frame.
  cbn [re.fr_items re.fr_alts rev app]. rewrite app_nil_r, rev_involutive. reflexivity.
Qed.

Lemma run_literals len text items s ms k :
  re.run len (re.sequence (map re.Literal text ++ items)) s ms k
  = match after_prefix text s with
    | Some s' => re.run len (re.sequence items) s' ms k
    | None => None
    end.
Proof.
  revert s. induction text as [| c text IH]; intros s; [reflexivity |].
  cbn [map app re.sequence re.run after_prefix].
  destruct s as [| x s]; [reflexivity |].
  destruct (chr_eqb x c); [apply IH | reflexivity].
Qed.

Lemma str_eqb_eq a b : str_eqb a b = true <-> a = b.
Proof.
  revert b. induction a as [| x a IH]; intros [| y b]; simpl; split;
    try discriminate; try reflexivity.
  - intros H. apply andb_true_iff in H as [Hx Ha].
    apply Ascii.eqb_eq in Hx. apply IH in Ha. now subst.
  - intros [= -> ->]. apply andb_true_iff. split; [apply Ascii.eqb_refl | now apply IH].
Qed.

Lemma after_prefix_all text s :
  match after_prefix text s with
  | Some [] => str_eqb s text = true
  | _ => str_eqb s text = false
  end.
Proof.
  revert s. induction text as [| c text IH]; intros [| x s]; simpl; try reflexivity.
  destruct (chr_eqb x c); [apply IH | reflexivity].
Qed.

(** [re.fullmatch(re.escape(text), s)] matches when [s] is [text], and only
    then, whatever characters [text] is made of. *)
Lemma fullmatch_escape text s :
  re.fullmatch (re.escape text) s = Ret (if str_eqb s text then Some [] else None).
Proof.
  unfold re.fullmatch. rewrite compile_escape. cbn [bind repeat].
  rewrite <- (app_nil_r (map re.Literal text)), run_literals.
  pose proof (after_prefix_all text s) as H.
  destruct (after_prefix text s) as [[| x s'] |]; rewrite H; reflexivity.
Qed.


(** ** The matcher finds matches only *)

Section RepeatSound.
Variables (len : nat) (body_regex : re.regex).
Variable body : str -> re.marks -> (str -> re.marks -> option re.marks) -> option re.marks.
Variables (min : nat) (max : option nat).
Variable k : str -> re.marks -> option re.marks.

Hypothesis body_sound :
  forall s ms k' res,
    body s ms k' = Some res ->
    exists s' ms', spans len body_regex s s' /\ k' s' ms' = Some res.
Hypothesis bounds : forall m, max = Some m -> min <= m.

Lemma until_sound fuel :
  forall count last_ptr s ms res,
    (forall m, max = Some m -> count <= m) ->
    re.until body min max k fuel count last_ptr s ms = Some res ->
    exists n s' ms',
      spans_times len n body_regex s s' /\
      min <= count + n /\ (forall m, max = Some m -> count + n <= m) /\
      k s' ms' = Some res.
Proof.
  induction fuel as [| fuel IH]; intros count last_ptr s ms res Hcount; simpl;
    [discriminate |].
  assert (Hstop : ~ count < min -> k s ms = Some res ->
                  exists n s' ms',
                    spans_times len n body_regex s s' /\
                    min <= count + n /\ (forall m, max = Some m -> count + n <= m) /\
                    k s' ms' = Some res).
  { intros Hmin Hk. exists 0, s, ms. repeat split.
    - constructor.
    - lia.
    - intros m Hm. specialize (Hcount m Hm). lia.
    - exact Hk. }
  assert (Hstep : forall last,
             (forall m, max = Some m -> S count <= m) ->
             body s ms (fun s' ms' => re.until body min max k fuel (S count) last s' ms')
             = Some res ->
             exists n s' ms',
               spans_times len n body_regex s s' /\
               min <= count + n /\ (forall m, max = Some m -> count + n <= m) /\
               k s' ms' = Some res).
  { intros last Hnext Hbody.
    destruct (body_sound _ _ _ _ Hbody) as (s1 & ms1 & Hspan & Hrest).
    destruct (IH _ _ _ _ _ Hnext Hrest) as (n & s' & ms' & Htimes & Hlo & Hhi & Hk).
    exists (S n), s', ms'. repeat split.
    - econstructor; eassumption.
    - lia.
    - intros m Hm. specialize (Hhi m Hm). lia.
    - exact Hk. }
  destruct (Nat.ltb_spec count min) as [Hlt | Hge].
  - apply Hstep. intros m Hm. specialize (bounds m Hm). lia.
  - destruct (re.below max count) eqn:Hbelow; simpl;
      [destruct (negb (re.same_ptr last_ptr (length s))); simpl |].
    + destruct (body s ms _) as [res' |] eqn:Hbody.
      * intros [= <-]. apply (Hstep (Some (length s))); [| exact Hbody].
        intros m Hm. subst max. simpl in Hbelow. apply Nat.ltb_lt in Hbelow. lia.
      * apply Hstop. lia.
    + apply Hstop. lia.
    + apply Hstop. lia.
Qed.
End RepeatSound.

(** The matcher finds nothing but matches. *)
Lemma run_sound len r :
  well_formed r = true ->
  forall s ms k res,
    re.run len r s ms k = Some res ->
    exists s' ms', spans len r s s' /\ k s' ms' = Some res.
Proof.
  induction r as [| c | | negate ranges | | | r1 IH1 r2 IH2 | r1 IH1 r2 IH2
                  | min max body IH | group body IH];
    intros Hwf s ms k res; cbn [re.run].
  - intros H. exists s, ms. split; [constructor | exact H].
  - destruct s as [| x s]; [discriminate |].
    unfold chr_eqb. destruct (Ascii.eqb_spec x c) as [-> | _]; [| discriminate].
    intros H. exists s, ms. split; [constructor | exact H].
  - destruct s as [| x s]; [discriminate |].
    unfold chr_eqb. destruct (Ascii.eqb_spec x re.newline) as [| Hx]; [discriminate |].
    intros H. exists s, ms. split; [constructor; exact Hx | exact H].
  - destruct s as [| x s]; [discriminate |].
    destruct (xorb negate (re.in_ranges x ranges)) eqn:Hin; [| discriminate].
    intros H. exists s, ms. split; [constructor; exact Hin | exact H].
  - destruct (Nat.eqb_spec (length s) len) as [Hlen |]; [| discriminate].
    intros H. exists s, ms. split; [constructor; exact Hlen | exact H].
  - destruct s as [| x [| y s]]; try discriminate.
    + intros H. exists [], ms. split; [constructor; now left | exact H].
    + unfold chr_eqb. destruct (Ascii.eqb_spec x re.newline) as [-> |]; [| discriminate].
      intros H. exists [re.newline], ms. split; [constructor; now right | exact H].
  - simpl in Hwf. apply andb_true_iff in Hwf as [Hwf1 Hwf2].
    intros H. destruct (IH1 Hwf1 _ _ _ _ H) as (s1 & ms1 & Hs1 & H1).
    destruct (IH2 Hwf2 _ _ _ _ H1) as (s2 & ms2 & Hs2 & H2).
    exists s2, ms2. split; [econstructor; eassumption | exact H2].
  - simpl in Hwf. apply andb_true_iff in Hwf as [Hwf1 Hwf2].
    destruct (re.run len r1 s ms k) as [res1 |] eqn:E1.
    + intros [= <-]. destruct (IH1 Hwf1 _ _ _ _ E1) as (s' & ms' & Hs & Hk).
      exists s', ms'. split; [now apply span_branch_first | exact Hk].
    + intros H. destruct (IH2 Hwf2 _ _ _ _ H) as (s' & ms' & Hs & Hk).
      exists s', ms'. split; [now apply span_branch_second | exact Hk].
  - simpl in Hwf. apply andb_true_iff in Hwf as [Hbounds Hwf].
    intros H.
    apply (until_sound len body (re.run len body) min max k (IH Hwf)) in H.
    + destruct H as (n & s' & ms' & Htimes & Hlo & Hhi & Hk).
      exists s', ms'. split; [| exact Hk].
      apply span_repeat with (n := n); assumption.
    + intros m ->. apply Nat.leb_le, Hbounds.
    + intros m _. lia.
  - simpl in Hwf. intros H.
    destruct (IH Hwf _ _ _ _ H) as (s' & ms' & Hs & Hk).
    exists s'. eexists. split; [constructor; exact Hs | exact Hk].
Qed.


(** ** What the parser builds is well formed *)

Lemma sequence_well_formed items :
  all_well_formed items -> well_formed (re.sequence items) = true.
Proof.
  induction 1 as [| r items Hr _ IH]; simpl; [reflexivity |].
  rewrite Hr, IH. reflexivity.
Qed.

Lemma branches_well_formed first others :
  well_formed first = true -> all_well_formed others ->
  well_formed (re.branches first others) = true.
Proof.
  intros Hfirst Hothers. revert first Hfirst.
  induction Hothers as [| r others Hr _ IH]; intros first Hfirst; simpl;
    [exact Hfirst |].
  rewrite Hfirst. simpl. apply IH, Hr.
Qed.

Lemma close_well_formed f : frame_ok f -> well_formed (re.close f) = true.
Proof.
  intros [Halts Hitems]. unfold re.close.
  assert (H : all_well_formed (rev (re.sequence (rev (re.fr_items f)) :: re.fr_alts f))).
  { apply Forall_rev. constructor; [| exact Halts].
    apply sequence_well_formed, Forall_rev, Hitems. }
  destruct (rev _) as [| first others]; [reflexivity |].
  inversion H; subst. now apply branches_well_formed.
Qed.

Lemma push_ok r f : well_formed r = true -> frame_ok f -> frame_ok (re.push r f).
Proof.
  intros Hr [Halts Hitems]. split; simpl; [exact Halts | now constructor].
Qed.

Lemma next_branch_ok f : frame_ok f -> frame_ok (re.next_branch f).
Proof.
  intros [Halts Hitems]. split; simpl; [| constructor].
  constructor; [| exact Halts]. apply sequence_well_formed, Forall_rev, Hitems.
Qed.

Lemma repeat_last_ok min max f f' :
  (forall m, max = Some m -> min <= m) ->
  frame_ok f -> re.repeat_last min max f = Some f' -> frame_ok f'.
Proof.
  intros Hbounds [Halts Hitems]. unfold re.repeat_last.
  destruct (re.fr_items f) as [| item items] eqn:E; [discriminate |].
  assert (Hwf : well_formed (re.MaxRepeat min max item) = true).
  { simpl. inversion Hitems; subst. apply andb_true_iff. split; [| assumption].
    destruct max as [m |]; [| reflexivity]. apply Nat.leb_le, Hbounds. reflexivity. }
  assert (Htail : all_well_formed items) by (inversion Hitems; assumption).
  destruct item; try discriminate; intros [= <-]; split; simpl;
    try exact Halts; constructor; assumption.
Qed.

Lemma parse_set_items_well_formed bound :
  forall negate toks acc n item consumed,
    length toks <= bound ->
    re.parse_set_items negate toks acc n = re.SetOk item consumed ->
    well_formed item = true.
Proof.
  induction bound as [| bound IH]; intros negate toks acc n item consumed Hlen;
    destruct toks as [| this rest]; simpl in *; try discriminate; try lia.
  destruct (re.is_chr "]" this && _); [intros [= <- _]; reflexivity |].
  destruct (re.class_code this) as [code1 |]; [| discriminate].
  destruct rest as [| dash [| that rest']]; cbv beta iota; cbn [re.head_is].
  - apply IH. simpl. lia.
  - destruct (re.is_chr "-" dash); [discriminate |].
    apply IH. simpl in *. lia.
  - destruct (negb (re.is_chr "-" dash)); [apply IH; simpl in *; lia |].
    destruct (re.is_chr "]" that); [intros [= <- _]; reflexivity |].
    destruct (re.class_code that) as [code2 |]; [| discriminate].
    destruct (_ <? _); [discriminate |]. apply IH. simpl in *. lia.
Qed.

Lemma parse_set_well_formed toks item consumed :
  re.parse_set toks = re.SetOk item consumed -> well_formed item = true.
Proof.
  unfold re.parse_set. destruct (re.head_is "^" toks);
    apply parse_set_items_well_formed with (bound := length toks);
    destruct toks; simpl; lia.
Qed.

Lemma parse_braces_bounds bad toks min max consumed :
  re.parse_braces bad toks = re.BrRepeat min max consumed ->
  forall m, max = Some m -> min <= m.
Proof.
  unfold re.parse_braces.
  destruct (re.head_is "}" toks); [discriminate |].
  destruct (re.span_digits toks) as [lo r1].
  destruct (if re.head_is "," r1 then re.span_digits (tl r1) else (lo, r1)) as [hi r2].
  destruct (re.head_is "}" r2); [| discriminate].
  destruct (bad && (length (tl r2) =? 0)); [discriminate |].
  destruct (re.MAXREPEAT <=? _)%N; [discriminate |].
  destruct hi as [| h hi].
  - intros [= <- <- _] m [=].
  - destruct (re.MAXREPEAT <=? _)%N; [discriminate |].
    destruct (N.ltb_spec (re.int_of_digits (h :: hi))
                         (match lo with [] => 0%N | _ :: _ => re.int_of_digits lo end));
      [discriminate |].
    intros [= <- <- _] m [= <-]. lia.
Qed.

Lemma parse_tokens_well_formed bad toks :
  forall skip cur stack groups r n,
    frame_ok cur -> Forall frame_ok stack ->
    re.parse_tokens bad toks skip cur stack groups = Ret (r, n) ->
    well_formed r = true.
Proof.
  induction toks as [| t rest IH]; intros skip cur stack groups r n Hcur Hstack;
    cbn [re.parse_tokens].
  - destruct bad; [discriminate |].
    destruct stack; [| discriminate]. intros [= <- _]. apply close_well_formed, Hcur.
  - destruct skip as [| skip]; [| apply IH; assumption].
    destruct t as [c | c].
    + destruct (chr_eqb c "."); [apply IH; auto using push_ok |].
      destruct (chr_eqb c "^"); [apply IH; auto using push_ok |].
      destruct (chr_eqb c "$"); [apply IH; auto using push_ok |].
      destruct (chr_eqb c "|"); [apply IH; auto using next_branch_ok |].
      destruct (chr_eqb c "(").
      { destruct (re.head_is "?" rest).
        - destruct (re.head_is ":" (tl rest)); [| discriminate].
          apply IH; [split; constructor | constructor; assumption].
        - apply IH; [split; constructor | constructor; assumption]. }
      destruct (chr_eqb c ")").
      { destruct stack as [| parent stack']; [discriminate |].
        inversion Hstack; subst.
        apply IH; [| assumption].
        apply push_ok; [| assumption]. simpl. apply close_well_formed, Hcur. }
      destruct (chr_eqb c "[").
      { destruct (re.parse_set rest) as [item consumed | |] eqn:E; try discriminate.
        apply IH; [| assumption].
        apply push_ok; [| assumption]. exact (parse_set_well_formed _ _ _ E). }
      destruct (chr_eqb c "*" || chr_eqb c "+" || chr_eqb c "?").
      { destruct (re.repeat_last _ _ cur) as [cur' |] eqn:E; [| discriminate].
        destruct (re.lazy_or_possessive rest); [discriminate |].
        apply IH; [| assumption].
        refine (repeat_last_ok _ _ _ _ _ Hcur E).
        intros m Hm. destruct (chr_eqb c "?"); [| discriminate Hm].
        injection Hm as <-. destruct (chr_eqb c "+"); lia. }
      destruct (chr_eqb c "{"); [| apply IH; auto using push_ok].
      destruct (re.parse_braces bad rest) as [| min max consumed | |] eqn:E;
        try discriminate; [apply IH; auto using push_ok |].
      destruct (re.repeat_last min max cur) as [cur' |] eqn:E'; [| discriminate].
      destruct (re.lazy_or_possessive _); [discriminate |].
      apply IH; [| assumption].
      exact (repeat_last_ok _ _ _ _ (parse_braces_bounds _ _ _ _ _ E) Hcur E').
    + destruct (re.is_alnum c); [discriminate |]. apply IH; auto using push_ok.
Qed.

Lemma compile_well_formed pattern r groups :
  re.compile pattern = Ret (r, groups) -> well_formed r = true.
Proof.
  unfold re.compile.
  apply parse_tokens_well_formed; [split; constructor | constructor].
Qed.

Lemma fullmatch_sound pattern string groups :
  re.fullmatch pattern string = Ret (Some groups) -> matches_whole pattern string.
Proof.
  unfold re.fullmatch, matches_whole.
  destruct (re.compile pattern) as [[r n] | |] eqn:E; simpl; try discriminate.
  intros [= H]. exists r, n. split; [reflexivity |].
  destruct (run_sound _ r (compile_well_formed _ _ _ E) _ _ _ _ H)
    as (s' & ms' & Hspan & Hend).
  destruct s'; [exact Hspan | discriminate].
Qed.


(** ** The fuel of a repeat is enough

    More fuel never changes what a repeat finds: the bound [run] starts a
    repeat with is not what stops it. *)

Section RepeatFuel.
Variable body : str -> re.marks -> (str -> re.marks -> option re.marks) -> option re.marks.
Variables (min : nat) (max : option nat).
Hypothesis body_looks_ahead : looks_ahead_only body.

Lemma iterations_left_mandatory count last_ptr s s' :
  count < min -> length s' <= length s ->
  iterations_left min (S count) last_ptr s' < iterations_left min count last_ptr s.
Proof.
  unfold iterations_left, re.same_ptr. intros Hc Hs.
  destruct last_ptr as [p |]; [| lia].
  destruct (Nat.eqb_spec p (length s')), (Nat.eqb_spec p (length s)); lia.
Qed.

Lemma iterations_left_optional count last_ptr s s' :
  min <= count -> re.same_ptr last_ptr (length s) = false -> length s' <= length s ->
  iterations_left min (S count) (Some (length s)) s' < iterations_left min count last_ptr s.
Proof.
  unfold iterations_left. intros Hc -> Hs. simpl.
  destruct (Nat.eqb_spec (length s) (length s')); lia.
Qed.

Lemma until_same_fuel k1 k2 fuel1 :
  forall fuel2 count last_ptr s ms,
    agree_below (length s) k1 k2 ->
    iterations_left min count last_ptr s <= fuel1 ->
    iterations_left min count last_ptr s <= fuel2 ->
    re.until body min max k1 fuel1 count last_ptr s ms
    = re.until body min max k2 fuel2 count last_ptr s ms.
Proof.
  induction fuel1 as [| fuel1 IH]; intros fuel2 count last_ptr s ms Hk H1 H2.
  - unfold iterations_left in H1. lia.
  - destruct fuel2 as [| fuel2]; [unfold iterations_left in H2; lia |].
    assert (Hks : forall s' : str,
               length s' <= length s -> agree_below (length s') k1 k2).
    { intros s' Hs' s'' ms'' Hs''. apply Hk. lia. }
    simpl. destruct (Nat.ltb_spec count min) as [Hlt | Hge].
    + apply body_looks_ahead. intros s' ms' Hs'.
      apply IH; [apply Hks, Hs' | |];
        pose proof (iterations_left_mandatory count last_ptr s s' Hlt Hs'); lia.
    + destruct (re.below max count); simpl; [| apply Hk; lia].
      destruct (re.same_ptr last_ptr (length s)) eqn:Hptr; simpl; [apply Hk; lia |].
      rewrite (body_looks_ahead s ms
                 (fun s' ms' => re.until body min max k1 fuel1 (S count)
                                         (Some (length s)) s' ms')
                 (fun s' ms' => re.until body min max k2 fuel2 (S count)
                                         (Some (length s)) s' ms')).
      * rewrite (Hk s ms) by lia. reflexivity.
      * intros s' ms' Hs'.
        apply IH; [apply Hks, Hs' | |];
          pose proof (iterations_left_optional count last_ptr s s' Hge Hptr Hs'); lia.
Qed.
End RepeatFuel.

Lemma run_looks_ahead len r : looks_ahead_only (re.run len r).
Proof.
  induction r as [| c | | negate ranges | | | r1 IH1 r2 IH2 | r1 IH1 r2 IH2
                  | min max body IH | group body IH];
    intros s ms k1 k2 Hk; cbn [re.run].
  - apply Hk. lia.
  - destruct s as [| x s]; [reflexivity |].
    destruct (chr_eqb x c); [apply Hk; simpl; lia | reflexivity].
  - destruct s as [| x s]; [reflexivity |].
    destruct (chr_eqb x re.newline); [reflexivity | apply Hk; simpl; lia].
  - destruct s as [| x s]; [reflexivity |].
    destruct (xorb negate _); [apply Hk; simpl; lia | reflexivity].
  - destruct (length s =? len); [apply Hk; lia | reflexivity].
  - destruct s as [| x [| y s]]; [apply Hk; lia | | reflexivity].
    destruct (chr_eqb x re.newline); [apply Hk; lia | reflexivity].
  - apply IH1. intros s' ms' Hs'. apply IH2. intros s'' ms'' Hs''. apply Hk. lia.
  - rewrite (IH1 s ms k1 k2 Hk), (IH2 s ms k1 k2 Hk). reflexivity.
  - apply until_same_fuel; [exact IH | exact Hk | |]; unfold iterations_left; simpl; lia.
  - apply IH. intros s' ms' Hs'. rewrite (Hk s' _ Hs'). reflexivity.
Qed.

(** With more fuel than [run] gives it, a repeat finds what it finds with
    the fuel [run] gives it. *)
Lemma repeat_fuel_is_enough len min max body k s ms extra :
  re.until (re.run len body) min max k (min + length s + 2 + extra) 0 None s ms
  = re.run len (re.MaxRepeat min max body) s ms k.
Proof.
  cbn [re.run].
  apply until_same_fuel;
    [apply run_looks_ahead | intros s' ms' _; reflexivity | |];
    unfold iterations_left; simpl; lia.
Qed.


(** ** The loop *)

Lemma authorized_loaded self fs user path permissions rights_config :
  rights_config_of self fs user path = Ret rights_config ->
  authorized self fs user path permissions =
  for_sections self rights_config (configparser.sections rights_config)
               (or_empty user) (pathutils.strip_path path) permissions.
Proof.
  unfold rights_config_of, authorized. intros ->. reflexivity.
Qed.

Lemma for_sections_no_match self rights_config section sections user sane_path permissions :
  section_matches rights_config section user sane_path = Ret false ->
  for_sections self rights_config (section :: sections) user sane_path permissions =
  for_sections self rights_config sections user sane_path permissions.
Proof.
  unfold section_matches. simpl.
  destruct (match_section rights_config section user sane_path) as [m | e |];
    simpl; try discriminate.
  intros H. injection H as ->. reflexivity.
Qed.

Lemma for_sections_match self rights_config section sections user sane_path permissions :
  section_matches rights_config section user sane_path = Ret true ->
  for_sections self rights_config (section :: sections) user sane_path permissions =
  (declared <- configparser.get rights_config section "permissions";;
   Ret (rights.intersect_permissions permissions declared)).
Proof.
  unfold section_matches. simpl.
  destruct (match_section rights_config section user sane_path) as [m | e |];
    simpl; try discriminate.
  intros H. injection H as ->. reflexivity.
Qed.

Lemma for_sections_raise self rights_config section sections user sane_path permissions e :
  match_section rights_config section user sane_path = Raise e ->
  for_sections self rights_config (section :: sections) user sane_path permissions =
  Raise (RuntimeError_section section (_filename self) e).
Proof.
  simpl. intros ->. reflexivity.
Qed.

Lemma for_sections_skip self rights_config earlier sections user sane_path permissions :
  Forall (fun s => section_matches rights_config s user sane_path = Ret false) earlier ->
  for_sections self rights_config (earlier ++ sections) user sane_path permissions =
  for_sections self rights_config sections user sane_path permissions.
Proof.
  induction 1 as [| s earlier Hs _ IH]; [reflexivity |].
  rewrite <- app_comm_cons, for_sections_no_match by exact Hs. exact IH.
Qed.

Lemma nth_error_firstn_skipn {A : Type} (l : list A) i a :
  nth_error l i = Some a -> l = firstn i l ++ a :: skipn (S i) l.
Proof.
  revert l. induction i as [| i IH]; intros [| x l]; simpl; try discriminate.
  - intros [= ->]. reflexivity.
  - intros H. f_equal. apply IH, H.
Qed.

Lemma reaches_split rights_config user sane_path i section :
  reaches rights_config user sane_path i section ->
  configparser.sections rights_config =
  firstn i (configparser.sections rights_config)
    ++ section :: skipn (S i) (configparser.sections rights_config).
Proof.
  intros [Hnth _]. apply nth_error_firstn_skipn, Hnth.
Qed.

Lemma for_sections_reaches self rights_config user sane_path permissions i section :
  reaches rights_config user sane_path i section ->
  for_sections self rights_config (configparser.sections rights_config)
               user sane_path permissions =
  for_sections self rights_config
               (section :: skipn (S i) (configparser.sections rights_config))
               user sane_path permissions.
Proof.
  intros H. rewrite (reaches_split _ _ _ _ _ H) at 1.
  apply for_sections_skip, H.
Qed.


(** ** First match, no match, and what can be granted *)

Lemma in_intersect_permissions c a b :
  In c (rights.intersect_permissions a b) <-> In c a /\ In c b.
Proof.
  unfold rights.intersect_permissions, chr_in.
  rewrite nodup_In, filter_In, existsb_exists.
  split; intros [Ha Hb]; split; trivial.
  - destruct Hb as (x & Hx & Heq). apply Ascii.eqb_eq in Heq. now subst.
  - exists c. split; trivial. apply Ascii.eqb_refl.
Qed.

(** C1.  When section [i] is the first whose two patterns match, the
    result is the intersection of the requested permissions with the
    permissions that section declares; it is the result of the loop run on
    the sections up to [i] alone, whatever the sections after [i] are. *)
Theorem first_match_wins self fs user path permissions rights_config i section declared :
  rights_config_of self fs user path = Ret rights_config ->
  reaches rights_config (or_empty user) (pathutils.strip_path path) i section ->
  section_matches rights_config section (or_empty user) (pathutils.strip_path path)
  = Ret true ->
  configparser.get rights_config section "permissions" = Ret declared ->
  authorized self fs user path permissions
  = Ret (rights.intersect_permissions permissions declared) /\
  authorized self fs user path permissions
  = for_sections self rights_config
                 (firstn (S i) (configparser.sections rights_config))
                 (or_empty user) (pathutils.strip_path path) permissions.
Proof.
  intros Hload Hreach Hmatch Hperm.
  rewrite (authorized_loaded _ _ _ _ permissions _ Hload).
  assert (Hhit : forall later,
             for_sections self rights_config
               (firstn i (configparser.sections rights_config) ++ section :: later)
               (or_empty user) (pathutils.strip_path path) permissions
             = Ret (rights.intersect_permissions permissions declared)).
  { intros later. rewrite for_sections_skip by apply Hreach.
    rewrite for_sections_match by exact Hmatch. rewrite Hperm. reflexivity. }
  split.
  - rewrite (reaches_split _ _ _ _ _ Hreach) at 1. apply Hhit.
  - rewrite (reaches_split _ _ _ _ _ Hreach) at 1. rewrite Hhit.
    rewrite (reaches_split _ _ _ _ _ Hreach) at 1.
    replace (S i) with (length (firstn i (configparser.sections rights_config)) + 1).
    + rewrite firstn_app_2. simpl. symmetry. apply Hhit.
    + rewrite length_firstn. destruct Hreach as [Hnth _].
      assert (i < length (configparser.sections rights_config))
        by (apply nth_error_Some; congruence).
      lia.
Qed.

Lemma first_match_wins_witness :
  authorized Sample.backend (Sample.holding Sample.shared_then_all)
             (Some ("alice" : str)) "/shared/notes/" "rw"
  = Ret ("r" : str) /\
  authorized Sample.backend (Sample.holding Sample.owner_then_public)
             (Some ("alice" : str)) "/bob/calendar/" "rw"
  = Ret ("r" : str).
Proof.
  split.
  - refine (proj1 (@first_match_wins Sample.backend
                     (Sample.holding Sample.shared_then_all)
                     (Some ("alice" : str)) "/shared/notes/" "rw"
                     _ 0 "shared" "r" eq_refl _ eq_refl eq_refl)).
    split; [reflexivity | constructor].
  - refine (proj1 (@first_match_wins Sample.backend
                     (Sample.holding Sample.owner_then_public)
                     (Some ("alice" : str)) "/bob/calendar/" "rw"
                     _ 1 "public" "r" eq_refl _ eq_refl eq_refl)).
    split; [reflexivity | repeat constructor].
Defined.

Lemma for_sections_without_match self rights_config sections user sane_path
      permissions granted :
  Forall (fun section =>
            section_matches rights_config section user sane_path <> Ret true)
         sections ->
  for_sections self rights_config sections user sane_path permissions = Ret granted ->
  granted = ("" : str).
Proof.
  induction 1 as [| section sections Hsection _ IH]; simpl.
  - intros H. injection H as <-. reflexivity.
  - unfold section_matches in Hsection.
    destruct (match_section rights_config section user sane_path) as [m | e |];
      simpl in *; try discriminate.
    destruct (truthy (fst m) && truthy (snd m)); [now destruct Hsection | exact IH].
Qed.

(** C5.  When the loop goes through every section and none matches, the
    result is the empty permission string, not an exception.  And whenever
    no section matches, be it that some cannot be evaluated, nothing is
    granted. *)
Theorem no_match_denies self fs user path permissions rights_config :
  rights_config_of self fs user path = Ret rights_config ->
  (Forall (fun section =>
             section_matches rights_config section
                             (or_empty user) (pathutils.strip_path path) = Ret false)
          (configparser.sections rights_config) ->
   authorized self fs user path permissions = Ret ("" : str)) /\
  (Forall (fun section =>
             section_matches rights_config section
                             (or_empty user) (pathutils.strip_path path) <> Ret true)
          (configparser.sections rights_config) ->
   forall granted,
     authorized self fs user path permissions = Ret granted -> granted = ("" : str)).
Proof.
  intros Hload. rewrite (authorized_loaded _ _ _ _ permissions _ Hload). split.
  - intros Hnone.
    rewrite <- (app_nil_r (configparser.sections rights_config)).
    rewrite for_sections_skip by exact Hnone. reflexivity.
  - intros Hnone granted. apply for_sections_without_match, Hnone.
Qed.

Lemma no_match_denies_witness :
  authorized Sample.backend
             (Sample.holding [Sample.rule "owner" "(.+)" "{0}(/.*)?" "rw"])
             (Some ("alice" : str)) "/bob/calendar/" "rw"
  = Ret ("" : str).
Proof.
  refine (proj1 (@no_match_denies Sample.backend
                   (Sample.holding [Sample.rule "owner" "(.+)" "{0}(/.*)?" "rw"])
                   (Some ("alice" : str)) "/bob/calendar/" "rw" _ eq_refl) _).
  repeat constructor.
Defined.

Lemma for_sections_subset self rights_config sections user sane_path permissions granted :
  for_sections self rights_config sections user sane_path permissions = Ret granted ->
  forall c, In c granted -> In c permissions.
Proof.
  induction sections as [| section sections IH]; simpl.
  - intros H c Hc. injection H as <-. destruct Hc.
  - destruct (match_section rights_config section user sane_path) as [m | e |];
      simpl; try discriminate.
    destruct (truthy (fst m) && truthy (snd m)); [| exact IH].
    destruct (configparser.get rights_config section "permissions") as [declared | |];
      simpl; try discriminate.
    intros H c Hc. injection H as <-. apply in_intersect_permissions in Hc. apply Hc.
Qed.

(** C6.  Whatever [authorized] returns, every permission in it was asked
    for. *)
Theorem granted_subset_of_requested self fs user path permissions granted :
  authorized self fs user path permissions = Ret granted ->
  forall c, In c granted -> In c permissions.
Proof.
  unfold authorized.
  destruct (load self fs _ _) as [rights_config | e |]; simpl; try discriminate.
  apply for_sections_subset.
Qed.

Lemma granted_subset_of_requested_witness :
  authorized Sample.backend (Sample.holding Sample.owner_then_public)
             (Some ("alice" : str)) "/bob/calendar/" "rx" = Ret ("r" : str) /\
  In "r"%char ("rx" : str).
Proof.
  split; [reflexivity |].
  apply (@granted_subset_of_requested Sample.backend
           (Sample.holding Sample.owner_then_public)
           (Some ("alice" : str)) "/bob/calendar/" "rx" "r" eq_refl).
  left. reflexivity.
Defined.


(** ** Path normalization *)












(** ** Sections that fail *)

Lemma match_section_user_matched rights_config section user sane_path
      user_pattern collection_pattern groups :
  configparser.get rights_config section "user" = Ret user_pattern ->
  configparser.get rights_config section "collection" = Ret collection_pattern ->
  re.fullmatch user_pattern user = Ret (Some groups) ->
  match_section rights_config section user sane_path =
  (pattern <- instantiate collection_pattern groups;;
   collection_match <- re.fullmatch pattern sane_path;;
   Ret (Some groups, collection_match)).
Proof.
  unfold match_section, instantiate. intros Hu Hc Hm.
  rewrite Hu. simpl. rewrite Hc. simpl. rewrite Hm. simpl.
  destruct (map_escape groups) as [args | |]; simpl; try reflexivity.
  destruct (str_format.format collection_pattern args); reflexivity.
Qed.

Lemma match_section_malformed rights_config section user sane_path
      user_pattern collection_pattern groups e :
  configparser.get rights_config section "user" = Ret user_pattern ->
  configparser.get rights_config section "collection" = Ret collection_pattern ->
  re.fullmatch user_pattern user = Ret (Some groups) ->
  malformed collection_pattern groups e ->
  match_section rights_config section user sane_path = Raise e.
Proof.
  intros Hu Hc Hm Hbad.
  rewrite (match_section_user_matched _ _ _ sane_path _ _ _ Hu Hc Hm).
  destruct Hbad as [e H | pattern e H Hre]; rewrite H; simpl; [reflexivity |].
  unfold re.fullmatch. rewrite Hre. reflexivity.
Qed.

Lemma map_escape_none groups : In None groups -> map_escape groups = Raise TypeError.
Proof.
  induction groups as [| [text |] groups IH]; simpl.
  - contradiction.
  - intros [H | H]; [discriminate H |]. rewrite (IH H). reflexivity.
  - reflexivity.
Qed.

Lemma map_escape_all texts : map_escape (map Some texts) = Ret (map re.escape texts).
Proof.
  induction texts as [| text texts IH]; simpl; [reflexivity |].
  rewrite IH. reflexivity.
Qed.

(** A resource pattern with a placeholder [{N}] is malformed for a user
    pattern with [N] groups or fewer. *)
Lemma placeholder_without_group_is_malformed template texts digits :
  forallb plain_piece template = true ->
  In (Placeholder digits) template ->
  length texts <= N.to_nat (re.int_of_digits digits) ->
  malformed (render template) (map Some texts) IndexError.
Proof.
  intros Hplain Hin Hlen. apply malformed_template.
  unfold instantiate. rewrite map_escape_all. cbn [bind].
  rewrite (format_render _ _ Hplain).
  rewrite (substitute_without_group _ _ digits Hin); [reflexivity |].
  rewrite length_map. exact Hlen.
Qed.

(** C4.  A section whose resource pattern is malformed for the user at hand
    makes [authorized] raise the [RuntimeError] that names the section, as
    soon as the loop gets to it and its user pattern matches; the loop does
    not go on to the sections after it. *)
Theorem malformed_rule_raises self fs user path permissions rights_config i section
        user_pattern collection_pattern groups e :
  rights_config_of self fs user path = Ret rights_config ->
  reaches rights_config (or_empty user) (pathutils.strip_path path) i section ->
  configparser.get rights_config section "user" = Ret user_pattern ->
  configparser.get rights_config section "collection" = Ret collection_pattern ->
  re.fullmatch user_pattern (or_empty user) = Ret (Some groups) ->
  malformed collection_pattern groups e ->
  authorized self fs user path permissions
  = Raise (RuntimeError_section section (_filename self) e).
Proof.
  intros Hload Hreach Hu Hc Hm Hbad.
  rewrite (authorized_loaded _ _ _ _ permissions _ Hload).
  rewrite (for_sections_reaches self _ _ _ permissions _ _ Hreach).
  apply for_sections_raise.
  exact (match_section_malformed _ _ _ _ _ _ _ _ Hu Hc Hm Hbad).
Qed.

Lemma malformed_rule_raises_witness :
  authorized Sample.backend
             (Sample.holding [Sample.rule "broken" ".+" "{0}/.*" "rw";
                              Sample.rule "public" ".*" ".*" "r"])
             (Some ("alice" : str)) "/alice/" "r"
  = Raise (RuntimeError_section "broken" "/etc/radicale/rights" IndexError).
Proof.
  refine (malformed_rule_raises Sample.backend
            (Sample.holding [Sample.rule "broken" ".+" "{0}/.*" "rw";
                             Sample.rule "public" ".*" ".*" "r"])
            (Some ("alice" : str)) "/alice/" "r" _ 0 "broken" ".+" "{0}/.*" []
            IndexError eq_refl _ eq_refl eq_refl eq_refl _).
  - split; [reflexivity | constructor].
  - exact (placeholder_without_group_is_malformed
             [Placeholder "0"; Text "/.*"] [] "0" eq_refl (or_introl eq_refl) (le_n 0)).
Defined.

Lemma map_escape_cases groups :
  (exists args, map_escape groups = Ret args /\ length args = length groups) \/
  map_escape groups = Raise TypeError.
Proof.
  induction groups as [| [text |] groups [(args & IH & Hlen) | IH]]; simpl.
  - left. exists []. split; reflexivity.
  - left. exists (re.escape text :: args). rewrite IH. simpl. split; [reflexivity | lia].
  - right. rewrite IH. reflexivity.
  - right. reflexivity.
  - right. reflexivity.
Qed.

(** C10.  Once the user pattern of a section matches, its resource pattern
    goes through [str.format] with the escaped groups before it is compiled,
    also when the user pattern has no group at all; when this fails,
    [authorized] raises the error of the section.  So it is for the resource
    pattern [a{2}] and a user pattern with two groups or fewer: as a regular
    expression [a{2}] matches [aa], but for [str.format] it holds a
    replacement field, which has no argument. *)
Theorem formatting_always_applied self fs user path permissions rights_config i section
        user_pattern collection_pattern groups :
  rights_config_of self fs user path = Ret rights_config ->
  reaches rights_config (or_empty user) (pathutils.strip_path path) i section ->
  configparser.get rights_config section "user" = Ret user_pattern ->
  configparser.get rights_config section "collection" = Ret collection_pattern ->
  re.fullmatch user_pattern (or_empty user) = Ret (Some groups) ->
  match_section rights_config section (or_empty user) (pathutils.strip_path path)
  = (args <- map_escape groups;;
     pattern <- str_format.format collection_pattern args;;
     collection_match <- re.fullmatch pattern (pathutils.strip_path path);;
     Ret (Some groups, collection_match)) /\
  (forall args e,
      map_escape groups = Ret args ->
      str_format.format collection_pattern args = Raise e ->
      authorized self fs user path permissions
      = Raise (RuntimeError_section section (_filename self) e)) /\
  (collection_pattern = ("a{2}" : str) -> length groups <= 2 ->
   exists e,
     authorized self fs user path permissions
     = Raise (RuntimeError_section section (_filename self) e)) /\
  (collection_pattern = ("a{2}" : str) -> groups = [] ->
   authorized self fs user path permissions
   = Raise (RuntimeError_section section (_filename self) IndexError)) /\
  re.fullmatch "a{2}" "aa" = Ret (Some []).
Proof.
  intros Hload Hreach Hu Hc Hm.
  assert (Hraise : forall e,
             instantiate collection_pattern groups = Raise e ->
             authorized self fs user path permissions
             = Raise (RuntimeError_section section (_filename self) e)).
  { intros e He.
    rewrite (authorized_loaded _ _ _ _ permissions _ Hload).
    rewrite (for_sections_reaches self _ _ _ permissions _ _ Hreach).
    apply for_sections_raise.
    apply (match_section_malformed _ _ _ _ _ _ _ _ Hu Hc Hm).
    apply malformed_template. exact He. }
  split; [| split; [| split; [| split; [| reflexivity]]]].
  - rewrite (match_section_user_matched _ _ _ _ _ _ _ Hu Hc Hm). unfold instantiate.
    destruct (map_escape groups); reflexivity.
  - intros args e Hargs He. apply Hraise. unfold instantiate. rewrite Hargs. exact He.
  - intros -> Hlen.
    destruct (map_escape_cases groups) as [(args & Hargs & Hlen') | Hargs].
    + exists IndexError. apply Hraise. unfold instantiate. rewrite Hargs. cbn [bind].
      change ("a{2}" : str) with (render [Text "a"; Placeholder "2"]).
      rewrite (format_render [Text "a"; Placeholder "2"] args eq_refl).
      rewrite (substitute_without_group [Text "a"; Placeholder "2"] args "2");
        [reflexivity | right; left; reflexivity |].
      change (N.to_nat (re.int_of_digits "2")) with 2. lia.
    + exists TypeError. apply Hraise. unfold instantiate. rewrite Hargs. reflexivity.
  - intros -> ->. apply Hraise. reflexivity.
Qed.

Lemma formatting_always_applied_witness :
  authorized Sample.backend
             (Sample.holding [Sample.rule "twice" ".*" "a{2}" "rw"])
             (Some ("alice" : str)) "/aa/" "r"
  = Raise (RuntimeError_section "twice" "/etc/radicale/rights" IndexError).
Proof.
  refine (proj1 (proj2 (proj2 (proj2
           (formatting_always_applied Sample.backend
              (Sample.holding [Sample.rule "twice" ".*" "a{2}" "rw"])
              (Some ("alice" : str)) "/aa/" "r" _ 0 "twice" ".*" "a{2}" []
              eq_refl _ eq_refl eq_refl eq_refl)))) eq_refl eq_refl).
  split; [reflexivity | constructor].
Defined.

(** ** Missing keys *)

Lemma lookup_app {V : Type} key (a b : list (str * V)) :
  configparser.lookup key (a ++ b)
  = match configparser.lookup key a with
    | Some v => Some v
    | None => configparser.lookup key b
    end.
Proof.
  induction a as [| [k v] a IH]; [reflexivity |]. simpl.
  destruct (str_eqb k key); [reflexivity | exact IH].
Qed.

Lemma get_missing_key rights_config section key :
  configparser.lower key = key ->
  missing_key rights_config section key ->
  configparser.get rights_config section key = Raise (NoOptionError key section).
Proof.
  intros Hlow (opts & Hsec & Hkey). unfold configparser.get.
  rewrite Hsec, Hlow, Hkey. reflexivity.
Qed.

(** C7, against the claim as it stands.  A section without its [user] key
    goes unnoticed when a section before it matches. *)
Lemma missing_key_after_match_unnoticed :
  exists rights_config,
    rights_config_of Sample.backend
      (Sample.holding [Sample.rule "public" ".*" ".*" "r";
                       ("broken" : str, [("collection" : str, ".*" : str)])])
      (Some ("alice" : str)) "/cal/" = Ret rights_config /\
    missing_key rights_config "broken" "user" /\
    missing_key rights_config "broken" "permissions" /\
    authorized Sample.backend
      (Sample.holding [Sample.rule "public" ".*" ".*" "r";
                       ("broken" : str, [("collection" : str, ".*" : str)])])
      (Some ("alice" : str)) "/cal/" "rw" = Ret ("r" : str).
Proof.
  eexists. split; [reflexivity |].
  split; [| split]; [eexists; split; reflexivity .. | reflexivity].
Qed.

(** Nor is a missing [permissions] key noticed in a section the loop gets
    to, when the section does not match. *)
Lemma missing_permissions_unnoticed_without_match :
  exists rights_config,
    rights_config_of Sample.backend
      (Sample.holding [("bob" : str, [("user" : str, "bob" : str);
                                      ("collection" : str, ".*" : str)]);
                       Sample.rule "public" ".*" ".*" "r"])
      (Some ("alice" : str)) "/cal/" = Ret rights_config /\
    missing_key rights_config "bob" "permissions" /\
    authorized Sample.backend
      (Sample.holding [("bob" : str, [("user" : str, "bob" : str);
                                      ("collection" : str, ".*" : str)]);
                       Sample.rule "public" ".*" ".*" "r"])
      (Some ("alice" : str)) "/cal/" "rw" = Ret ("r" : str).
Proof.
  eexists. split; [reflexivity |].
  split; [eexists; split; reflexivity | reflexivity].
Qed.

Lemma lookup_in {V : Type} key (d : list (str * V)) :
  List.In key (map fst d) -> exists v, configparser.lookup key d = Some v.
Proof.
  induction d as [| [k v] d IH]; simpl; [contradiction |].
  intros Hin. destruct (str_eqb k key) eqn:E; [eauto |].
  destruct Hin as [-> | Hin]; [| exact (IH Hin)].
  assert (str_eqb key key = true) by now apply str_eqb_eq. congruence.
Qed.

(** Looking up one of the first [n] keys does not get to what follows
    them. *)
Lemma lookup_firstn {V : Type} key (d later : list (str * V)) n :
  List.In key (map fst (firstn n d)) ->
  configparser.lookup key (firstn n d ++ later) = configparser.lookup key d.
Proof.
  intros Hin. destruct (lookup_in _ _ Hin) as [v Hv].
  rewrite lookup_app, Hv.
  rewrite <- (firstn_skipn n d) at 1. rewrite lookup_app, Hv. reflexivity.
Qed.

Lemma get_same_section rights_config rights_config' section option :
  configparser.cp_defaults rights_config' = configparser.cp_defaults rights_config ->
  configparser.lookup section (configparser.cp_sections rights_config')
  = configparser.lookup section (configparser.cp_sections rights_config) ->
  configparser.get rights_config' section option
  = configparser.get rights_config section option.
Proof.
  unfold configparser.get. intros -> ->. reflexivity.
Qed.

Lemma section_matches_same_section rights_config rights_config' section user sane_path :
  configparser.cp_defaults rights_config' = configparser.cp_defaults rights_config ->
  configparser.lookup section (configparser.cp_sections rights_config')
  = configparser.lookup section (configparser.cp_sections rights_config) ->
  section_matches rights_config' section user sane_path
  = section_matches rights_config section user sane_path.
Proof.
  intros Hd Hs. unfold section_matches, match_section.
  rewrite !(get_same_section _ _ _ _ Hd Hs). reflexivity.
Qed.

(** The loop up to a section that matches, with any sections put in the
    place of the sections after it. *)
Lemma for_sections_later_replaced self rights_config user sane_path permissions
      i section later :
  reaches rights_config user sane_path i section ->
  section_matches rights_config section user sane_path = Ret true ->
  for_sections self
    (configparser.mkConfigParser
       (configparser.cp_defaults rights_config)
       (firstn (S i) (configparser.cp_sections rights_config) ++ later))
    (map fst (firstn (S i) (configparser.cp_sections rights_config) ++ later))
    user sane_path permissions
  = for_sections self rights_config (configparser.sections rights_config)
                 user sane_path permissions.
Proof.
  intros Hreach Hmatch.
  rewrite (for_sections_reaches self _ _ _ permissions _ _ Hreach).
  rewrite (for_sections_match _ _ _ _ _ _ _ Hmatch).
  destruct Hreach as [Hnth Hbefore]. unfold configparser.sections in Hnth, Hbefore.
  set (rights_config' :=
         configparser.mkConfigParser
           (configparser.cp_defaults rights_config)
           (firstn (S i) (configparser.cp_sections rights_config) ++ later)).
  assert (Hsame : forall name,
             List.In name (firstn (S i) (map fst (configparser.cp_sections rights_config))) ->
             configparser.lookup name (configparser.cp_sections rights_config')
             = configparser.lookup name (configparser.cp_sections rights_config)).
  { intros name Hin. apply lookup_firstn. rewrite <- firstn_map. exact Hin. }
  assert (Hsplit : firstn (S i) (map fst (configparser.cp_sections rights_config))
                   = firstn i (map fst (configparser.cp_sections rights_config))
                       ++ [section]).
  { clear - Hnth. revert i Hnth.
    induction (map fst (configparser.cp_sections rights_config)) as [| x l IH];
      intros [| i]; simpl; try discriminate.
    - intros [= ->]. reflexivity.
    - intros H. f_equal. apply IH, H. }
  rewrite map_app, <- firstn_map, Hsplit, <- app_assoc.
  rewrite for_sections_skip.
  - cbn [app]. rewrite for_sections_match.
    + rewrite (get_same_section rights_config rights_config'); [reflexivity .. |].
      apply Hsame. rewrite Hsplit. apply in_or_app. right. left. reflexivity.
    + rewrite (section_matches_same_section rights_config rights_config');
        [exact Hmatch | reflexivity |].
      apply Hsame. rewrite Hsplit. apply in_or_app. right. left. reflexivity.
  - rewrite Forall_forall in Hbefore |- *. intros earlier Hin.
    rewrite (section_matches_same_section rights_config rights_config');
      [exact (Hbefore _ Hin) | reflexivity |].
    apply Hsame. rewrite Hsplit. apply in_or_app. left. exact Hin.
Qed.

(** C7, as the code has it.  The keys of a section are read when the loop
    gets to the section.  A missing [user] key, and a missing [collection]
    key once the [user] key has been read without error, make [authorized]
    raise the [RuntimeError] of the section with the [NoOptionError] that
    names the key and the section as its cause; a missing [permissions] key
    is noticed when the section matches, and the [NoOptionError] is raised
    as it is.  When the section matches, the sections after it are not
    read: with any sections in their place, whatever keys these have, the
    outcome is the same.  When the section does not match, its
    [permissions] key is not asked for: the loop goes on with the next
    section, whether the key is there or not. *)
Theorem missing_key_raises_when_read self fs user path permissions rights_config i section :
  rights_config_of self fs user path = Ret rights_config ->
  reaches rights_config (or_empty user) (pathutils.strip_path path) i section ->
  (missing_key rights_config section "user" ->
   authorized self fs user path permissions
   = Raise (RuntimeError_section section (_filename self)
                                 (NoOptionError "user" section))) /\
  (forall user_pattern,
      configparser.get rights_config section "user" = Ret user_pattern ->
      missing_key rights_config section "collection" ->
      authorized self fs user path permissions
      = Raise (RuntimeError_section section (_filename self)
                                    (NoOptionError "collection" section))) /\
  (section_matches rights_config section (or_empty user) (pathutils.strip_path path)
   = Ret true ->
   missing_key rights_config section "permissions" ->
   authorized self fs user path permissions
   = Raise (NoOptionError "permissions" section)) /\
  (section_matches rights_config section (or_empty user) (pathutils.strip_path path)
   = Ret true ->
   forall later,
     for_sections self
       (configparser.mkConfigParser
          (configparser.cp_defaults rights_config)
          (firstn (S i) (configparser.cp_sections rights_config) ++ later))
       (map fst (firstn (S i) (configparser.cp_sections rights_config) ++ later))
       (or_empty user) (pathutils.strip_path path) permissions
     = authorized self fs user path permissions) /\
  (section_matches rights_config section (or_empty user) (pathutils.strip_path path)
   = Ret false ->
   authorized self fs user path permissions
   = for_sections self rights_config
                  (skipn (S i) (configparser.sections rights_config))
                  (or_empty user) (pathutils.strip_path path) permissions).
Proof.
  intros Hload Hreach.
  rewrite (authorized_loaded _ _ _ _ permissions _ Hload).
  split; [| split; [| split; [| split]]].
  - intros Hmiss. rewrite (for_sections_reaches self _ _ _ permissions _ _ Hreach).
    apply for_sections_raise. unfold match_section.
    rewrite (get_missing_key _ _ "user" eq_refl Hmiss). reflexivity.
  - intros user_pattern Hu Hmiss.
    rewrite (for_sections_reaches self _ _ _ permissions _ _ Hreach).
    apply for_sections_raise. unfold match_section.
    rewrite Hu. simpl.
    rewrite (get_missing_key _ _ "collection" eq_refl Hmiss). reflexivity.
  - intros Hmatch Hmiss.
    rewrite (for_sections_reaches self _ _ _ permissions _ _ Hreach).
    rewrite for_sections_match by exact Hmatch.
    rewrite (get_missing_key _ _ "permissions" eq_refl Hmiss). reflexivity.
  - intros Hmatch later.
    apply (for_sections_later_replaced _ _ _ _ _ _ section); assumption.
  - intros Hskip. rewrite (for_sections_reaches self _ _ _ permissions _ _ Hreach).
    apply for_sections_no_match, Hskip.
Qed.

Lemma missing_key_raises_when_read_witness :
  authorized Sample.backend
    (Sample.holding [("broken" : str, [("collection" : str, ".*" : str)]);
                     Sample.rule "public" ".*" ".*" "r"])
    (Some ("alice" : str)) "/cal/" "rw"
  = Raise (RuntimeError_section "broken" "/etc/radicale/rights"
                                (NoOptionError "user" "broken")) /\
  authorized Sample.backend
    (Sample.holding [("broken" : str, [("user" : str, ".*" : str)]);
                     Sample.rule "public" ".*" ".*" "r"])
    (Some ("alice" : str)) "/cal/" "rw"
  = Raise (RuntimeError_section "broken" "/etc/radicale/rights"
                                (NoOptionError "collection" "broken")) /\
  authorized Sample.backend
    (Sample.holding [("broken" : str, [("user" : str, ".*" : str);
                                       ("collection" : str, ".*" : str)]);
                     Sample.rule "public" ".*" ".*" "r"])
    (Some ("alice" : str)) "/cal/" "rw"
  = Raise (NoOptionError "permissions" "broken") /\
  for_sections Sample.backend
    (configparser.mkConfigParser
       [("login" : str, ("alice" : str)); ("path" : str, ("cal" : str))]
       [Sample.rule "public" ".*" ".*" "r";
        ("broken" : str, [("collection" : str, ".*" : str)])])
    [("public" : str); ("broken" : str)] "alice" "cal" "rw"
  = authorized Sample.backend
      (Sample.holding [Sample.rule "public" ".*" ".*" "r";
                       Sample.rule "all" ".*" ".*" "rw"])
      (Some ("alice" : str)) "/cal/" "rw" /\
  authorized Sample.backend
    (Sample.holding [("bob" : str, [("user" : str, "bob" : str);
                                    ("collection" : str, ".*" : str)]);
                     Sample.rule "public" ".*" ".*" "r"])
    (Some ("alice" : str)) "/cal/" "rw"
  = for_sections Sample.backend
      (configparser.mkConfigParser
         [("login" : str, ("alice" : str)); ("path" : str, ("cal" : str))]
         [("bob" : str, [("user" : str, "bob" : str);
                         ("collection" : str, ".*" : str)]);
          Sample.rule "public" ".*" ".*" "r"])
      [("public" : str)] "alice" "cal" "rw".
Proof.
  split; [| split; [| split; [| split]]].
  - refine (proj1 (missing_key_raises_when_read Sample.backend
              (Sample.holding [("broken" : str, [("collection" : str, ".*" : str)]);
                               Sample.rule "public" ".*" ".*" "r"])
              (Some ("alice" : str)) "/cal/" "rw" _ 0 "broken" eq_refl _) _).
    + split; [reflexivity | constructor].
    + eexists. split; reflexivity.
  - refine (proj1 (proj2 (missing_key_raises_when_read Sample.backend
              (Sample.holding [("broken" : str, [("user" : str, ".*" : str)]);
                               Sample.rule "public" ".*" ".*" "r"])
              (Some ("alice" : str)) "/cal/" "rw" _ 0 "broken" eq_refl _)) ".*" eq_refl _).
    + split; [reflexivity | constructor].
    + eexists. split; reflexivity.
  - refine (proj1 (proj2 (proj2 (missing_key_raises_when_read Sample.backend
              (Sample.holding [("broken" : str, [("user" : str, ".*" : str);
                                                 ("collection" : str, ".*" : str)]);
                               Sample.rule "public" ".*" ".*" "r"])
              (Some ("alice" : str)) "/cal/" "rw" _ 0 "broken" eq_refl _))) eq_refl _).
    + split; [reflexivity | constructor].
    + eexists. split; reflexivity.
  - refine (proj1 (proj2 (proj2 (proj2 (missing_key_raises_when_read Sample.backend
              (Sample.holding [Sample.rule "public" ".*" ".*" "r";
                               Sample.rule "all" ".*" ".*" "rw"])
              (Some ("alice" : str)) "/cal/" "rw" _ 0 "public" eq_refl _)))) eq_refl
              [("broken" : str, [("collection" : str, ".*" : str)])]).
    split; [reflexivity | constructor].
  - refine (proj2 (proj2 (proj2 (proj2 (missing_key_raises_when_read Sample.backend
              (Sample.holding [("bob" : str, [("user" : str, "bob" : str);
                                              ("collection" : str, ".*" : str)]);
                               Sample.rule "public" ".*" ".*" "r"])
              (Some ("alice" : str)) "/cal/" "rw" _ 0 "bob" eq_refl _)))) eq_refl).
    split; [reflexivity | constructor].
Defined.


(** ** Matching the whole string *)

Lemma match_section_inv rights_config section user sane_path user_match collection_match :
  match_section rights_config section user sane_path
  = Ret (Some user_match, Some collection_match) ->
  exists user_pattern collection_pattern pattern,
    configparser.get rights_config section "user" = Ret user_pattern /\
    configparser.get rights_config section "collection" = Ret collection_pattern /\
    re.fullmatch user_pattern user = Ret (Some user_match) /\
    instantiate collection_pattern user_match = Ret pattern /\
    re.fullmatch pattern sane_path = Ret (Some collection_match).
Proof.
  unfold match_section, instantiate.
  destruct (configparser.get rights_config section "user") as [user_pattern | |]
    eqn:Hu; simpl; try discriminate.
  destruct (configparser.get rights_config section "collection")
    as [collection_pattern | |] eqn:Hc; simpl; try discriminate.
  destruct (re.fullmatch user_pattern user) as [[groups |] | |] eqn:Hum;
    simpl; try discriminate.
  destruct (map_escape groups) as [args | |] eqn:Ha; simpl; try discriminate.
  destruct (str_format.format collection_pattern args) as [pattern | |] eqn:Hf;
    simpl; try discriminate.
  destruct (re.fullmatch pattern sane_path) as [[groups' |] | |] eqn:Hcm;
    simpl; try discriminate.
  intros [= <- <-]. exists user_pattern, collection_pattern, pattern.
  repeat split; try assumption. rewrite Ha. exact Hf.
Qed.

(** C8.  When a section matches, its user pattern matches the identity from
    the first character to the last, and its resource pattern, with the
    groups put in, matches the whole stripped path.  A pattern that matches a
    part of the string only is no match: [cal] is found at the start of
    [calendar] and at the end of [mycal], and matches neither. *)
Theorem full_string_matching rights_config section user sane_path :
  (forall user_match collection_match,
      match_section rights_config section user sane_path
      = Ret (Some user_match, Some collection_match) ->
      exists user_pattern collection_pattern pattern,
        configparser.get rights_config section "user" = Ret user_pattern /\
        configparser.get rights_config section "collection" = Ret collection_pattern /\
        instantiate collection_pattern user_match = Ret pattern /\
        matches_whole user_pattern user /\
        matches_whole pattern sane_path) /\
  (forall pattern string,
      ~ matches_whole pattern string ->
      forall groups, re.fullmatch pattern string <> Ret (Some groups)) /\
  (exists r, re.compile "cal" = Ret (r, 0) /\
             spans 8 r "calendar" "endar" /\ spans 3 r "cal" "") /\
  re.fullmatch "cal" "calendar" = Ret None /\
  re.fullmatch "cal" "mycal" = Ret None /\
  re.fullmatch "cal" "cal" = Ret (Some []).
Proof.
  split; [| split; [| split; [| repeat split]]].
  - intros user_match collection_match H.
    destruct (match_section_inv _ _ _ _ _ _ H)
      as (user_pattern & collection_pattern & pattern & Hu & Hc & Hum & Hi & Hcm).
    exists user_pattern, collection_pattern, pattern.
    repeat split; try assumption; eapply fullmatch_sound; eassumption.
  - intros pattern string Hno groups H. apply Hno. exact (fullmatch_sound _ _ _ H).
  - eexists. split; [reflexivity |].
    split; repeat (eapply span_cat; [apply span_literal |]); apply span_eps.
Qed.

Lemma full_string_matching_witness :
  matches_whole "(.+)" "alice" /\ matches_whole "alice(/.*)?" "alice/calendar".
Proof.
  destruct (proj1 (full_string_matching
                     (configparser.mkConfigParser [] Sample.owner_then_public)
                     "owner" "alice" "alice/calendar")
                  [Some ("alice" : str)] [Some ("/calendar" : str)] eq_refl)
    as (user_pattern & collection_pattern & pattern & Hu & Hc & Hi & H1 & H2).
  vm_compute in Hu. injection Hu as <-.
  vm_compute in Hc. injection Hc as <-.
  vm_compute in Hi. injection Hi as <-.
  split; assumption.
Defined.


(** ** A group that names a subtree *)

(** A repeat of [.] before a continuation that wants the end of the subject
    takes everything up to the end, and fails on a line feed. *)
Lemma any_repeat_to_end len min k :
  (forall x s ms, k (x :: s) ms = None) ->
  forall s fuel count last_ptr ms,
    length s < fuel -> fresh last_ptr s ->
    re.until (re.run len re.Any) min None k fuel count last_ptr s ms
    = if newline_free s && (min <=? count + length s) then k [] ms else None.
Proof.
  intros Hk.
  remember (re.run len re.Any) as body eqn:Hb.
  assert (Hbody : forall s ms k',
             body s ms k'
             = match s with
               | [] => None
               | x :: s' => if chr_eqb x re.newline then None else k' s' ms
               end) by (subst body; reflexivity).
  clear Hb.
  induction s as [| x s IH]; intros fuel count last_ptr ms Hfuel Hfresh;
    (destruct fuel as [| fuel]; [simpl in Hfuel; lia |]); cbn [re.until];
    rewrite !Hbody.
  - cbn [newline_free forallb length andb]. rewrite Nat.add_0_r.
    destruct (Nat.ltb_spec count min) as [Hlt | Hge].
    + destruct (Nat.leb_spec min count); [lia | reflexivity].
    + destruct (Nat.leb_spec min count); [| lia].
      cbn [re.below andb].
      destruct (negb (re.same_ptr last_ptr 0)); reflexivity.
  - assert (Hptr : re.same_ptr last_ptr (length (x :: s)) = false).
    { unfold re.same_ptr. destruct last_ptr as [p |]; [| reflexivity].
      apply Nat.eqb_neq. specialize (Hfresh p eq_refl). lia. }
    rewrite Hptr. cbn [re.below andb negb newline_free forallb].
    replace (count + length (x :: s)) with (S count + length s) by (simpl; lia).
    destruct (Nat.ltb_spec count min) as [Hlt | Hge].
    + destruct (chr_eqb x re.newline); [reflexivity |]. cbn [negb andb].
      apply IH; [simpl in Hfuel; lia |].
      intros p Hp. specialize (Hfresh p Hp). simpl in Hfresh. lia.
    + destruct (chr_eqb x re.newline); cbn [negb andb].
      * apply Hk.
      * rewrite IH; [| simpl in Hfuel; lia | intros p [= <-]; simpl; lia].
        rewrite Hk.
        change (forallb (fun c => negb (chr_eqb c re.newline)) s) with (newline_free s).
        destruct (newline_free s && (min <=? S count + length s)); [| reflexivity].
        destruct (k [] ms); reflexivity.
Qed.

Lemma after_prefix_app text s : after_prefix text (text ++ s) = Some s.
Proof.
  induction text as [| c text IH]; simpl; [reflexivity |].
  unfold chr_eqb. rewrite Ascii.eqb_refl. exact IH.
Qed.

Lemma after_prefix_append text more s :
  after_prefix (text ++ more) s
  = match after_prefix text s with
    | Some s' => after_prefix more s'
    | None => None
    end.
Proof.
  revert s. induction text as [| c text IH]; intros s; simpl; [reflexivity |].
  destruct s as [| x s]; [destruct more; reflexivity |].
  destruct (chr_eqb x c); [apply IH | reflexivity].
Qed.

Lemma run_cat len r1 r2 s ms k :
  re.run len (re.Cat r1 r2) s ms k
  = re.run len r1 s ms (fun s' ms' => re.run len r2 s' ms' k).
Proof. reflexivity. Qed.

Lemma run_subpattern len group body s ms k :
  re.run len (re.SubPattern group body) s ms k
  = re.run len body s ms
           (fun s' ms' =>
              k s' match group with
                   | Some i => re.set_mark i (firstn (length s - length s') s) ms'
                   | None => ms'
                   end).
Proof. reflexivity. Qed.

Lemma run_max_repeat len min max body s ms k :
  re.run len (re.MaxRepeat min max body) s ms k
  = re.until (re.run len body) min max k (min + length s + 2) 0 None s ms.
Proof. reflexivity. Qed.

(** [user-(.+)] matches a user [user-NAME] and takes the name as its
    group. *)
Lemma fullmatch_user_name name :
  name <> [] -> newline_free name = true ->
  re.fullmatch "user-(.+)" ("user-" ++ name) = Ret (Some [Some name]).
Proof.
  intros Hne Hnl. unfold re.fullmatch.
  change (re.compile "user-(.+)")
    with (Ret (re.sequence
                 (map re.Literal "user-"
                      ++ [re.SubPattern (Some 0)
                            (re.Cat (re.MaxRepeat 1 None re.Any) re.Eps)]), 1)).
  cbn [bind repeat]. rewrite run_literals, after_prefix_app.
  cbn [re.sequence]. rewrite run_cat, run_subpattern, run_cat, run_max_repeat.
  rewrite any_repeat_to_end;
    [| intros; reflexivity | lia | intros p [=]].
  rewrite Hnl. destruct name as [| c name]; [now destruct Hne |].
  replace (1 <=? 0 + length (c :: name)) with true
    by (symmetry; apply Nat.leb_le; simpl; lia).
  cbn [andb re.run re.at_end]. change (length (@nil ascii)) with 0.
  rewrite Nat.sub_0_r, firstn_all. reflexivity.
Qed.

(** [NAME/.*], with the name escaped, matches the paths under the name. *)
Lemma fullmatch_subtree name path :
  re.fullmatch (re.escape name ++ "/.*") path
  = Ret (match after_prefix (name ++ "/") path with
         | Some rest => if newline_free rest then Some [] else None
         | None => None
         end).
Proof.
  unfold re.fullmatch, re.compile. rewrite tokenize_app_escape, bad_escape_app_escape.
  change (re.tokenize "/.*") with [re.TChar "/"; re.TChar "."; re.TChar "*"].
  change (re.bad_escape "/.*") with false.
  rewrite parse_tokens_escaped.
  change (re.parse_tokens false [re.TChar "/"; re.TChar "."; re.TChar "*"] 0
            (push_literals name re.top_frame) [] 0)
    with (Ret (re.close
                 (re.mkFrame None []
                    (re.MaxRepeat 0 None re.Any :: re.Literal "/"
                       :: rev (map re.Literal name) ++ [])), 0)).
  unfold re.close. cbn [re.fr_items re.fr_alts rev app bind repeat re.branches].
  rewrite app_nil_r, rev_involutive, <- app_assoc. cbn [app].
  rewrite run_literals, after_prefix_append.
  destruct (after_prefix name path) as [rest |]; [| reflexivity].
  cbn [re.sequence]. rewrite run_cat.
  change (after_prefix "/" rest)
    with (match rest with
          | [] => None
          | x :: rest' => if chr_eqb x "/" then Some rest' else None
          end).
  destruct rest as [| x rest]; [reflexivity |].
  cbn [re.run]. destruct (chr_eqb x "/"); [| reflexivity].
  change (re.until _ 0 None _ _ 0 None rest [])
    with (re.until (re.run (length path) re.Any) 0 None
                   (fun s ms => re.run (length path) re.Eps s ms re.at_end)
                   (0 + length rest + 2) 0 None rest []).
  rewrite any_repeat_to_end; [| intros; reflexivity | lia | intros p [=]].
  cbn [Nat.leb andb re.at_end re.run]. rewrite andb_true_r. reflexivity.
Qed.

(** With the user pattern [user-(.+)] and the resource pattern [{0}/.*], the
    user [user-NAME] is matched by the paths under [NAME], whatever
    characters the name is made of, and by no other path. *)
Lemma captured_name_owns_subtree rights_config section name sane_path :
  configparser.get rights_config section "user" = Ret ("user-(.+)" : str) ->
  configparser.get rights_config section "collection" = Ret ("{0}/.*" : str) ->
  name <> [] -> newline_free name = true ->
  section_matches rights_config section ("user-" ++ name) sane_path
  = Ret (match after_prefix (name ++ "/") sane_path with
         | Some rest => newline_free rest
         | None => false
         end).
Proof.
  intros Hu Hc Hne Hnl. unfold section_matches.
  rewrite (match_section_user_matched _ _ _ sane_path _ _ _ Hu Hc
             (fullmatch_user_name name Hne Hnl)).
  unfold instantiate. cbn [map_escape bind].
  change ("{0}/.*" : str) with (render [Placeholder "0"; Text "/.*"]).
  rewrite (format_render [Placeholder "0"; Text "/.*"] [re.escape name] eq_refl).
  cbn [substitute nth_error option_map]. 
  change (N.to_nat (re.int_of_digits "0")) with 0. cbn [nth_error].
  rewrite app_nil_r. cbn [bind]. rewrite fullmatch_subtree. cbn [bind fst snd truthy].
  destruct (after_prefix (name ++ "/") sane_path) as [rest |]; [| reflexivity].
  destruct (newline_free rest); reflexivity.
Qed.

(** ** Capture groups in the resource pattern *)





(** ** The login and the path in a pattern *)

Lemma chr_in_escape x text :
  chr_eqb x "\" = false -> chr_in x text = false -> chr_in x (re.escape text) = false.
Proof.
  intros Hx. unfold chr_in, re.escape. induction text as [| c text IH]; simpl;
    [reflexivity |].
  intros H. apply orb_false_iff in H as [Hc Ht].
  rewrite existsb_app, (IH Ht), orb_false_r. unfold re.escape_chr.
  destruct (chr_in c re.special_chars); simpl; rewrite ?Hx, Hc; reflexivity.
Qed.

(** A reference to the login is replaced by the escaped login, when the
    login has no percent sign. *)
Lemma interpolate_login fuel option section map user :
  configparser.lookup ("login" : str) map = Some (re.escape user) ->
  chr_in "%" user = false ->
  configparser.interpolate_some (S fuel) option section map "%(login)s"
  = Ret (re.escape user).
Proof.
  intros Hlogin Hpercent.
  assert (Hv : chr_in "%" (re.escape user) = false)
    by (apply chr_in_escape; [reflexivity | exact Hpercent]).
  change ("%(login)s" : str)
    with ["%"%char; "("%char; "l"%char; "o"%char; "g"%char; "i"%char; "n"%char;
          ")"%char; "s"%char].
  cbn [configparser.interpolate_some].
  change (chr_eqb "%" "%") with true. cbv iota.
  change (configparser.key_reference _ [] 0) with (Some ("login" : str, 8)).
  cbv iota beta.
  change (configparser.lower ("login" : str)) with ("login" : str).
  rewrite Hlogin, Hv. cbn [bind]. rewrite app_nil_r. reflexivity.
Qed.

(** A section whose resource pattern is the reference to the login matches
    the path that is the login and no other, for a login without percent
    signs and braces.  *)
Lemma login_collection_is_literal rights_config section opts user sane_path
      user_pattern groups args :
  configparser.lookup section (configparser.cp_sections rights_config) = Some opts ->
  configparser.lookup ("collection" : str) (opts ++ configparser.cp_defaults rights_config)
  = Some ("%(login)s" : str) ->
  configparser.lookup ("login" : str) (opts ++ configparser.cp_defaults rights_config)
  = Some (re.escape user) ->
  chr_in "%" user = false -> chr_in "{" user = false -> chr_in "}" user = false ->
  configparser.get rights_config section "user" = Ret user_pattern ->
  re.fullmatch user_pattern user = Ret (Some groups) ->
  map_escape groups = Ret args ->
  section_matches rights_config section user sane_path = Ret (str_eqb sane_path user).
Proof.
  intros Hsec Hcoll Hlogin Hpercent Hopen Hclose Hu Hm Hargs.
  assert (Hc : configparser.get rights_config section "collection"
               = Ret (re.escape user)).
  { unfold configparser.get. rewrite Hsec.
    change (configparser.lower ("collection" : str)) with ("collection" : str).
    rewrite Hcoll. apply interpolate_login; assumption. }
  unfold section_matches.
  rewrite (match_section_user_matched _ _ _ sane_path _ _ _ Hu Hc Hm).
  unfold instantiate. rewrite Hargs. cbn [bind].
  unfold str_format.format.
  rewrite <- (app_nil_r (re.escape user)).
  rewrite format_from_text by (apply chr_in_escape; trivial).
  cbn [str_format.format_from bind]. rewrite !app_nil_r.
  rewrite fullmatch_escape. cbn [bind fst snd truthy].
  destruct (str_eqb sane_path user); reflexivity.
Qed.

(** C3, where the code falls short of it.  What a pattern gets for the
    login is the escaped login after another round of interpolation by
    [configparser], and the resource pattern goes through [str.format] after
    that.  For the user [.*%%] the login expands to the pattern of [.*%], so
    the section for the user's own collection grants them the collection
    [.*%] and not their own, [.*%%]; for a user with a lone percent sign or
    with a brace in their name the section cannot be evaluated.  A user
    without these characters is matched as they are. *)
Theorem login_percent_is_interpolated :
  authorized Sample.backend (Sample.holding Sample.own_collection)
             (Some (".*%%" : str)) ".*%" "rw" = Ret ("rw" : str) /\
  authorized Sample.backend (Sample.holding Sample.own_collection)
             (Some (".*%%" : str)) ".*%%" "rw" = Ret ("" : str) /\
  authorized Sample.backend (Sample.holding Sample.own_collection)
             (Some ("50%" : str)) "50%" "rw"
  = Raise (RuntimeError_section "own" "/etc/radicale/rights"
             (InterpolationSyntaxError "collection" "own")) /\
  authorized Sample.backend (Sample.holding Sample.own_collection)
             (Some ("{" : str)) "{" "rw"
  = Raise (RuntimeError_section "own" "/etc/radicale/rights" ValueError) /\
  authorized Sample.backend (Sample.holding Sample.own_collection)
             (Some (".*" : str)) "anything" "rw" = Ret ("" : str) /\
  authorized Sample.backend (Sample.holding Sample.own_collection)
             (Some (".*" : str)) ".*" "rw" = Ret ("rw" : str).
Proof.
  repeat split; reflexivity.
Qed.


(** * Further properties *)

(** ** Who a user pattern stands for *)

Lemma fullmatch_dot_plus s :
  re.fullmatch ".+" s
  = Ret (if newline_free s && (1 <=? length s) then Some [] else None).
Proof.
  unfold re.fullmatch.
  change (re.compile ".+")
    with (Ret (re.Cat (re.MaxRepeat 1 None re.Any) re.Eps, 0)).
  cbn [bind repeat]. rewrite run_cat, run_max_repeat.
  rewrite any_repeat_to_end; [| intros; reflexivity | lia | intros p [=]].
  reflexivity.
Qed.

Lemma fullmatch_dot_star s :
  re.fullmatch ".*" s = Ret (if newline_free s then Some [] else None).
Proof.
  unfold re.fullmatch.
  change (re.compile ".*")
    with (Ret (re.Cat (re.MaxRepeat 0 None re.Any) re.Eps, 0)).
  cbn [bind repeat]. rewrite run_cat, run_max_repeat.
  rewrite any_repeat_to_end; [| intros; reflexivity | lia | intros p [=]].
  cbn [Nat.leb]. rewrite andb_true_r. reflexivity.
Qed.

Lemma section_matches_without_groups rights_config section user sane_path
      user_pattern collection_pattern :
  configparser.get rights_config section "user" = Ret user_pattern ->
  configparser.get rights_config section "collection" = Ret collection_pattern ->
  re.fullmatch user_pattern user = Ret (Some []) ->
  section_matches rights_config section user sane_path
  = collection_alone collection_pattern sane_path.
Proof.
  intros Hu Hc Hm. unfold section_matches, collection_alone.
  rewrite (match_section_user_matched _ _ _ sane_path _ _ _ Hu Hc Hm).
  unfold instantiate. cbn [map_escape bind].
  destruct (str_format.format collection_pattern []) as [pattern | |]; cbn [bind];
    try reflexivity.
  destruct (re.fullmatch pattern sane_path); reflexivity.
Qed.

Lemma section_matches_user_unmatched rights_config section user sane_path
      user_pattern collection_pattern :
  configparser.get rights_config section "user" = Ret user_pattern ->
  configparser.get rights_config section "collection" = Ret collection_pattern ->
  re.fullmatch user_pattern user = Ret None ->
  section_matches rights_config section user sane_path = Ret false.
Proof.
  intros Hu Hc Hm. unfold section_matches, match_section.
  rewrite Hu. cbn [bind]. rewrite Hc. cbn [bind]. rewrite Hm. reflexivity.
Qed.

(** X1.  The user pattern [.+] stands for the authenticated users: a section
    with it is decided by its resource pattern for a user with a name, and
    never matches the anonymous user, be it given as [None] or as the empty
    string.  The user pattern [.*] stands for anybody, the anonymous user
    too.  (Neither matches a name with a line feed in it.) *)
Theorem authenticated_or_anybody rights_config section collection_pattern user sane_path :
  configparser.get rights_config section "collection" = Ret collection_pattern ->
  (configparser.get rights_config section "user" = Ret (".+" : str) ->
   section_matches rights_config section (or_empty user) sane_path
   = if newline_free (or_empty user) && (1 <=? length (or_empty user))
     then collection_alone collection_pattern sane_path
     else Ret false) /\
  (configparser.get rights_config section "user" = Ret (".*" : str) ->
   section_matches rights_config section (or_empty user) sane_path
   = if newline_free (or_empty user)
     then collection_alone collection_pattern sane_path
     else Ret false) /\
  (or_empty user = [] <-> user = None \/ user = Some []).
Proof.
  intros Hc. split; [| split].
  - intros Hu.
    destruct (newline_free (or_empty user) && (1 <=? length (or_empty user))) eqn:E.
    + apply (section_matches_without_groups _ _ _ _ _ _ Hu Hc).
      rewrite fullmatch_dot_plus, E. reflexivity.
    + apply (section_matches_user_unmatched _ _ _ _ _ _ Hu Hc).
      rewrite fullmatch_dot_plus, E. reflexivity.
  - intros Hu. destruct (newline_free (or_empty user)) eqn:E.
    + apply (section_matches_without_groups _ _ _ _ _ _ Hu Hc).
      rewrite fullmatch_dot_star, E. reflexivity.
    + apply (section_matches_user_unmatched _ _ _ _ _ _ Hu Hc).
      rewrite fullmatch_dot_star, E. reflexivity.
  - destruct user as [[| c u] |]; simpl; split; auto; try discriminate.
    intros [H | H]; discriminate H.
Qed.

Lemma authenticated_or_anybody_witness :
  section_matches (configparser.mkConfigParser [] Sample.authenticated_then_anybody)
                  "authenticated" (or_empty None) "calendar" = Ret false /\
  section_matches (configparser.mkConfigParser [] Sample.authenticated_then_anybody)
                  "authenticated" (or_empty (Some ("alice" : str))) "calendar" = Ret true /\
  section_matches (configparser.mkConfigParser [] Sample.authenticated_then_anybody)
                  "anybody" (or_empty None) "calendar" = Ret true.
Proof.
  split; [| split].
  - exact (proj1 (authenticated_or_anybody
                    (configparser.mkConfigParser [] Sample.authenticated_then_anybody)
                    "authenticated" ".*" None "calendar" eq_refl) eq_refl).
  - exact (proj1 (authenticated_or_anybody
                    (configparser.mkConfigParser [] Sample.authenticated_then_anybody)
                    "authenticated" ".*" (Some ("alice" : str)) "calendar" eq_refl)
                 eq_refl).
  - exact (proj1 (proj2 (authenticated_or_anybody
                    (configparser.mkConfigParser [] Sample.authenticated_then_anybody)
                    "anybody" ".*" None "calendar" eq_refl)) eq_refl).
Defined.

(** ** The rights file *)

Lemma load_raises self fs user_escaped sane_path_escaped e :
  load self fs user_escaped sane_path_escaped = Raise e ->
  exists cause, e = RuntimeError_load (_filename self) cause.
Proof.
  unfold load.
  destruct (configparser.read _ fs (_filename self)) as [[parser [| f files]] | cause |];
    simpl; intros H; try discriminate H; injection H as <-; eauto.
Qed.

(** X2.  A rights file that cannot be opened, that cannot be parsed, or that
    has a section or an option twice makes every call fail with the error
    "Failed to load rights file", which carries the name of the file and the
    cause; for a file that cannot be opened the cause is the error "No such
    file".  No section is looked at, whoever asks for whatever. *)
Theorem unreadable_rights_file self fs user path permissions :
  (fs (_filename self) = configparser.NoFile ->
   authorized self fs user path permissions
   = Raise (RuntimeError_load (_filename self)
              (RuntimeError_no_such_file (_filename self)))) /\
  (fs (_filename self) = configparser.BadFile ->
   authorized self fs user path permissions
   = Raise (RuntimeError_load (_filename self) ParsingError)) /\
  (forall default_section sections option,
      fs (_filename self) = configparser.File default_section sections ->
      configparser.first_duplicate [] (map fst default_section) = Some option ->
      authorized self fs user path permissions
      = Raise (RuntimeError_load (_filename self)
                 (DuplicateOptionError "DEFAULT" option))) /\
  (forall default_section sections e,
      fs (_filename self) = configparser.File default_section sections ->
      configparser.first_duplicate [] (map fst default_section) = None ->
      configparser.check_strict [] sections = Raise e ->
      authorized self fs user path permissions
      = Raise (RuntimeError_load (_filename self) e)).
Proof.
  unfold authorized, load, configparser.read. repeat split.
  - intros ->. reflexivity.
  - intros ->. reflexivity.
  - intros d sections option -> ->. reflexivity.
  - intros d sections e -> -> ->. reflexivity.
Qed.

Lemma unreadable_rights_file_witness :
  authorized Sample.backend (fun _ => configparser.NoFile) None "/" "r"
  = Raise (RuntimeError_load "/etc/radicale/rights"
             (RuntimeError_no_such_file "/etc/radicale/rights")) /\
  authorized Sample.backend (fun _ => configparser.BadFile) None "/" "r"
  = Raise (RuntimeError_load "/etc/radicale/rights" ParsingError) /\
  authorized Sample.backend (Sample.holding Sample.public_twice)
             (Some ("alice" : str)) "public" "r"
  = Raise (RuntimeError_load "/etc/radicale/rights" (DuplicateSectionError "public")).
Proof.
  split; [| split].
  - exact (proj1 (unreadable_rights_file Sample.backend (fun _ => configparser.NoFile)
                    None "/" "r") eq_refl).
  - exact (proj1 (proj2 (unreadable_rights_file Sample.backend
                           (fun _ => configparser.BadFile) None "/" "r")) eq_refl).
  - exact (proj2 (proj2 (proj2 (unreadable_rights_file Sample.backend
                                  (Sample.holding Sample.public_twice)
                                  (Some ("alice" : str)) "public" "r")))
                 [] Sample.public_twice (DuplicateSectionError "public")
                 eq_refl eq_refl eq_refl).
Defined.

Lemma existsb_str_eqb name seen :
  existsb (str_eqb name) seen = true <-> In name seen.
Proof.
  rewrite existsb_exists. split.
  - intros (x & Hin & Heq). apply str_eqb_eq in Heq. now subst.
  - intros Hin. exists name. split; [exact Hin | now apply str_eqb_eq].
Qed.

Lemma check_strict_nodup seen sections :
  configparser.check_strict seen sections = Ret tt ->
  NoDup (map fst sections) /\
  forall name, In name seen -> ~ In name (map fst sections).
Proof.
  revert seen. induction sections as [| [name opts] sections IH]; intros seen; simpl.
  - intros _. split; [constructor | auto].
  - destruct (configparser.section_name_ok name && configparser.options_ok opts);
      [| discriminate]. cbn [negb].
    destruct (existsb (str_eqb name) seen) eqn:Hseen; [discriminate |].
    destruct (configparser.first_duplicate [] (map fst opts)); [discriminate |].
    intros H. destruct (IH _ H) as [Hnodup Hfresh]. split.
    + constructor; [| exact Hnodup]. apply Hfresh. left. reflexivity.
    + intros other Hin [<- | Hother].
      * apply existsb_str_eqb in Hin. congruence.
      * apply (Hfresh other); [right; exact Hin | exact Hother].
Qed.

Lemma lookup_nodup {V : Type} (d : list (str * V)) key v :
  NoDup (map fst d) -> In (key, v) d -> configparser.lookup key d = Some v.
Proof.
  induction d as [| [k v'] d IH]; simpl; [contradiction |].
  intros Hnodup Hin. inversion Hnodup as [| ? ? Hk Hd]; subst.
  destruct (str_eqb k key) eqn:E.
  - apply str_eqb_eq in E. subst k. destruct Hin as [[= ->] | Hin]; [reflexivity |].
    exfalso. apply Hk. apply (in_map fst) in Hin. exact Hin.
  - destruct Hin as [[= -> ->] | Hin].
    + assert (str_eqb key key = true) by now apply str_eqb_eq. congruence.
    + apply IH; assumption.
Qed.

Lemma rights_config_of_file self fs user path rights_config :
  rights_config_of self fs user path = Ret rights_config ->
  exists default_section sections,
    fs (_filename self) = configparser.File default_section sections /\
    configparser.check_strict [] sections = Ret tt /\
    rights_config
    = configparser.mkConfigParser
        (default_section
           ++ [("login" : str, re.escape (or_empty user));
               ("path" : str, re.escape (pathutils.strip_path path))])
        sections.
Proof.
  unfold rights_config_of, load, configparser.read.
  destruct (fs (_filename self)) as [| | d sections |]; simpl; try discriminate.
  destruct (configparser.first_duplicate [] (map fst d)); simpl; try discriminate.
  destruct (configparser.check_strict [] sections) as [[] | |] eqn:Hstrict; simpl;
    try discriminate.
  destruct (configparser.options_ok d); simpl; try discriminate.
  intros [= <-]. exists d, sections. repeat split. exact Hstrict.
Qed.

(** ** What [configparser.get] raises, and the name of the section in it *)

Lemma same_but_section_bind {A B : Type} section'
      (m m' : result A) (k k' : A -> result B) :
  same_but_section section' m m' ->
  (forall a, same_but_section section' (k a) (k' a)) ->
  same_but_section section' (bind m k) (bind m' k').
Proof.
  destruct m as [a | e |], m' as [a' | e' |]; simpl; try contradiction.
  - intros <- H. apply H.
  - auto.
Qed.

Lemma same_but_section_refl {A : Type} section' (a : A) :
  same_but_section section' (Ret a) (Ret a).
Proof. reflexivity. Qed.

Lemma interpolate_some_section fuel option section section' map value :
  same_but_section section'
    (configparser.interpolate_some fuel option section map value)
    (configparser.interpolate_some fuel option section' map value).
Proof.
  revert value. induction fuel as [| fuel IH]; intros value.
  - simpl. split; reflexivity.
  - cbn [configparser.interpolate_some].
    match goal with
    | |- same_but_section _ (?f value 0) (?g value 0) =>
        set (scan := f); set (scan' := g)
    end.
    generalize 0 at 1 2. induction value as [| c rest IHrest]; intros skip.
    + reflexivity.
    + destruct skip as [| skip]; [| apply IHrest].
      change (scan (c :: rest) 0) with
        (if chr_eqb c "%" then
           match rest with
           | "%"%char :: _ => out <- scan rest 1;; Ret (c :: out)
           | "("%char :: rest'' =>
               match configparser.key_reference rest'' [] 0 with
               | None => Raise (InterpolationSyntaxError option section)
               | Some (name, n) =>
                   match configparser.lookup (configparser.lower name) map with
                   | None =>
                       Raise (InterpolationMissingOptionError
                                option section (configparser.lower name))
                   | Some v =>
                       expanded <-
                         (if chr_in "%" v
                          then configparser.interpolate_some fuel option section map v
                          else Ret v);;
                       out <- scan rest n;;
                       Ret (expanded ++ out)
                   end
               end
           | _ => Raise (InterpolationSyntaxError option section)
           end
         else out <- scan rest 0;; Ret (c :: out)).
      change (scan' (c :: rest) 0) with
        (if chr_eqb c "%" then
           match rest with
           | "%"%char :: _ => out <- scan' rest 1;; Ret (c :: out)
           | "("%char :: rest'' =>
               match configparser.key_reference rest'' [] 0 with
               | None => Raise (InterpolationSyntaxError option section')
               | Some (name, n) =>
                   match configparser.lookup (configparser.lower name) map with
                   | None =>
                       Raise (InterpolationMissingOptionError
                                option section' (configparser.lower name))
                   | Some v =>
                       expanded <-
                         (if chr_in "%" v
                          then configparser.interpolate_some fuel option section' map v
                          else Ret v);;
                       out <- scan' rest n;;
                       Ret (expanded ++ out)
                   end
               end
           | _ => Raise (InterpolationSyntaxError option section')
           end
         else out <- scan' rest 0;; Ret (c :: out)).
      destruct (chr_eqb c "%").
      * destruct rest as [| c' rest'']; [split; reflexivity |].
        destruct (ascii_dec c' "%") as [-> | Hpercent].
        { apply same_but_section_bind; [apply IHrest | intros; reflexivity]. }
        destruct (ascii_dec c' "(") as [-> | Hparen].
        { destruct (configparser.key_reference rest'' [] 0) as [[name n] |];
            [| split; reflexivity].
          destruct (configparser.lookup (configparser.lower name) map) as [v |];
            [| split; reflexivity].
          apply same_but_section_bind.
          - destruct (chr_in "%" v); [apply IH | reflexivity].
          - intros expanded. apply same_but_section_bind;
              [apply IHrest | intros; reflexivity]. }
        destruct c' as [[] [] [] [] [] [] [] []];
          try (exfalso; apply Hpercent; reflexivity);
          try (exfalso; apply Hparen; reflexivity);
          split; reflexivity.
      * apply same_but_section_bind; [apply IHrest | intros; reflexivity].
Qed.

Lemma anonymous_resection section e : anonymous (resection section e) = anonymous e.
Proof. destruct e; reflexivity. Qed.

Lemma same_but_section_without_names {A : Type} section' (r r' : result A) :
  same_but_section section' r r' -> without_names r = without_names r'.
Proof.
  destruct r as [a | e |], r' as [a' | e' |]; simpl; try contradiction.
  - intros ->. reflexivity.
  - intros [_ ->]. rewrite anonymous_resection. reflexivity.
Qed.

Lemma get_raises rights_config section option e :
  configparser.get rights_config section option = Raise e ->
  configparser_error e = true.
Proof.
  unfold configparser.get.
  destruct (configparser.lookup section _) as [opts |]; [| intros [= <-]; reflexivity].
  destruct (configparser.lookup (configparser.lower option) _) as [value |];
    [| intros [= <-]; reflexivity].
  intros H.
  pose proof (interpolate_some_section configparser.MAX_INTERPOLATION_DEPTH
                (configparser.lower option) section section
                (opts ++ configparser.cp_defaults rights_config) value) as Hsame.
  rewrite H in Hsame. apply Hsame.
Qed.

(** ** The exceptions of [authorized] *)

Lemma for_sections_raises self rights_config sections user sane_path permissions e :
  for_sections self rights_config sections user sane_path permissions = Raise e ->
  exists section,
    In section sections /\
    ((exists cause,
         match_section rights_config section user sane_path = Raise cause /\
         e = RuntimeError_section section (_filename self) cause) \/
     (section_matches rights_config section user sane_path = Ret true /\
      configparser.get rights_config section "permissions" = Raise e)).
Proof.
  induction sections as [| section sections IH]; [discriminate |].
  cbn [for_sections]. unfold section_matches.
  destruct (match_section rights_config section user sane_path)
    as [[user_match collection_match] | cause |] eqn:Hm; cbn [try_except bind fst snd].
  - destruct (truthy user_match && truthy collection_match) eqn:Hboth.
    + destruct (configparser.get rights_config section "permissions") eqn:Hget;
        cbn [bind]; try discriminate.
      intros [= <-]. exists section. split; [left; reflexivity |].
      right. rewrite Hm. cbn [bind fst snd]. rewrite Hboth.
      split; [reflexivity | exact Hget].
    + intros H. destruct (IH H) as (s & Hin & Hs).
      exists s. split; [right; exact Hin | exact Hs].
  - intros [= <-]. exists section. split; [left; reflexivity |].
    left. exists cause. split; [exact Hm | reflexivity].
  - discriminate.
Qed.

(** X4.  An exception of [authorized] tells where it comes from.  It is the
    error "Failed to load rights file" with the name of the file, raised
    before any section is looked at; or it is the error "Error in section"
    with the name of a section of the file, the name of the file and what
    evaluating the two patterns of that section raised; or it is an
    exception of [configparser] from reading the permissions of the section
    that matched.  A regular expression error, or an error of [str.format],
    never leaves [authorized] bare. *)
Theorem exceptions_tell_their_origin self fs user path permissions e :
  authorized self fs user path permissions = Raise e ->
  (exists cause,
      rights_config_of self fs user path = Raise e /\
      e = RuntimeError_load (_filename self) cause) \/
  (exists rights_config section,
      rights_config_of self fs user path = Ret rights_config /\
      In section (configparser.sections rights_config) /\
      ((exists cause,
           match_section rights_config section
                         (or_empty user) (pathutils.strip_path path) = Raise cause /\
           e = RuntimeError_section section (_filename self) cause) \/
       (section_matches rights_config section
                        (or_empty user) (pathutils.strip_path path) = Ret true /\
        configparser.get rights_config section "permissions" = Raise e /\
        configparser_error e = true))).
Proof.
  intros H.
  destruct (rights_config_of self fs user path) as [rights_config | e' |] eqn:Hload.
  - right. rewrite (authorized_loaded _ _ _ _ permissions _ Hload) in H.
    apply for_sections_raises in H as (section & Hin & [Hs | [Hs Hget]]).
    + exists rights_config, section. auto.
    + exists rights_config, section. repeat split; auto.
      right. repeat split; auto. apply (get_raises _ _ _ _ Hget).
  - left. unfold authorized in H. unfold rights_config_of in Hload.
    rewrite Hload in H. cbn [bind] in H. injection H as ->.
    destruct (load_raises _ _ _ _ _ Hload) as [cause ->]. eauto.
  - unfold authorized in H. unfold rights_config_of in Hload.
    rewrite Hload in H. discriminate H.
Qed.

Lemma exceptions_tell_their_origin_witness :
  (exists cause,
      rights_config_of Sample.backend (Sample.holding Sample.broken_admin_then_public)
                       (Some ("admin" : str)) "/calendar/"
      = Raise (RuntimeError_section "admin" "/etc/radicale/rights" re_error) /\
      RuntimeError_section "admin" "/etc/radicale/rights" re_error
      = RuntimeError_load (_filename Sample.backend) cause) \/
  (exists rights_config section,
      rights_config_of Sample.backend (Sample.holding Sample.broken_admin_then_public)
                       (Some ("admin" : str)) "/calendar/" = Ret rights_config /\
      In section (configparser.sections rights_config) /\
      ((exists cause,
           match_section rights_config section
                         (or_empty (Some ("admin" : str)))
                         (pathutils.strip_path "/calendar/") = Raise cause /\
           RuntimeError_section "admin" "/etc/radicale/rights" re_error
           = RuntimeError_section section (_filename Sample.backend) cause) \/
       (section_matches rights_config section
                        (or_empty (Some ("admin" : str)))
                        (pathutils.strip_path "/calendar/") = Ret true /\
        configparser.get rights_config section "permissions"
        = Raise (RuntimeError_section "admin" "/etc/radicale/rights" re_error) /\
        configparser_error (RuntimeError_section "admin" "/etc/radicale/rights" re_error)
        = true))).
Proof.
  exact (exceptions_tell_their_origin
           Sample.backend (Sample.holding Sample.broken_admin_then_public)
           (Some ("admin" : str)) "/calendar/" "rw"
           (RuntimeError_section "admin" "/etc/radicale/rights" re_error) eq_refl).
Defined.

(** ** The requested permissions *)

Lemma for_sections_declared self rights_config sections user sane_path :
  exists declared : result (option str),
    forall permissions,
      for_sections self rights_config sections user sane_path permissions
      = (d <- declared;; Ret (granted_from permissions d)).
Proof.
  induction sections as [| section sections [declared IH]].
  - exists (Ret None). reflexivity.
  - cbn [for_sections].
    destruct (match_section rights_config section user sane_path)
      as [[user_match collection_match] | cause |]; cbn [try_except bind fst snd].
    + destruct (truthy user_match && truthy collection_match).
      * exists (d <- configparser.get rights_config section "permissions";; Ret (Some d)).
        intros permissions.
        destruct (configparser.get rights_config section "permissions"); reflexivity.
      * exists declared. exact IH.
    + exists (Raise (RuntimeError_section section (_filename self) cause)). reflexivity.
    + exists Unmodelled. reflexivity.
Qed.

(** X5.  The requested permissions have no part in finding the section that
    decides: which section matches, what it declares and what exception is
    raised are the same for every set of requested permissions, which only
    filter what the deciding section declares ([None]: no section
    matches). *)
Theorem requested_permissions_only_filter self fs user path :
  exists declared : result (option str),
    forall permissions,
      authorized self fs user path permissions
      = (d <- declared;; Ret (granted_from permissions d)).
Proof.
  unfold authorized.
  destruct (load self fs _ _) as [rights_config | e |]; cbn [bind].
  - apply for_sections_declared.
  - exists (Raise e). reflexivity.
  - exists Unmodelled. reflexivity.
Qed.

(** ** The names of the sections *)

Lemma without_names_bind {A B : Type} (m m' : result A) (k k' : A -> result B) :
  without_names m = without_names m' ->
  (forall a, without_names (k a) = without_names (k' a)) ->
  without_names (bind m k) = without_names (bind m' k').
Proof.
  destruct m as [a | e |], m' as [a' | e' |]; simpl; try discriminate.
  - intros [= <-] H. apply H.
  - intros [= ->] _. reflexivity.
  - reflexivity.
Qed.

Section Rename.
Variable rename : str -> str.
Hypothesis rename_injective : forall a b, rename a = rename b -> a = b.

Lemma str_eqb_rename a b : str_eqb (rename a) (rename b) = str_eqb a b.
Proof.
  destruct (str_eqb a b) eqn:E.
  - apply str_eqb_eq in E. subst. now apply str_eqb_eq.
  - destruct (str_eqb (rename a) (rename b)) eqn:E'; [| reflexivity].
    apply str_eqb_eq, rename_injective, str_eqb_eq in E'. congruence.
Qed.

Lemma lookup_rename section sections :
  configparser.lookup (rename section) (rename_sections rename sections)
  = configparser.lookup section sections.
Proof.
  induction sections as [| [name opts] sections IH]; [reflexivity |].
  cbn [rename_sections map configparser.lookup fst snd].
  rewrite str_eqb_rename. destruct (str_eqb name section); [reflexivity | exact IH].
Qed.

Lemma get_rename defaults sections section option :
  same_but_section (rename section)
    (configparser.get (configparser.mkConfigParser defaults sections) section option)
    (configparser.get (configparser.mkConfigParser
                         defaults (rename_sections rename sections))
                      (rename section) option).
Proof.
  unfold configparser.get. cbn [configparser.cp_sections configparser.cp_defaults].
  rewrite lookup_rename.
  destruct (configparser.lookup section sections) as [opts |]; [| split; reflexivity].
  destruct (configparser.lookup (configparser.lower option) (opts ++ defaults));
    [| split; reflexivity].
  apply interpolate_some_section.
Qed.

Lemma match_section_rename defaults sections section user sane_path :
  without_names
    (match_section (configparser.mkConfigParser defaults sections)
                   section user sane_path)
  = without_names
      (match_section (configparser.mkConfigParser
                        defaults (rename_sections rename sections))
                     (rename section) user sane_path).
Proof.
  unfold match_section.
  apply without_names_bind;
    [apply (same_but_section_without_names _ _ _ (get_rename _ _ _ _)) |].
  intros user_pattern. apply without_names_bind;
    [apply (same_but_section_without_names _ _ _ (get_rename _ _ _ _)) |].
  reflexivity.
Qed.

Lemma for_sections_rename self defaults sections names user sane_path permissions :
  without_names
    (for_sections self (configparser.mkConfigParser defaults sections)
                  names user sane_path permissions)
  = without_names
      (for_sections self (configparser.mkConfigParser
                            defaults (rename_sections rename sections))
                    (map rename names) user sane_path permissions).
Proof.
  induction names as [| section names IH]; [reflexivity |].
  cbn [map for_sections].
  pose proof (match_section_rename defaults sections section user sane_path) as Hm.
  destruct (match_section (configparser.mkConfigParser defaults sections)
                          section user sane_path) as [matches | cause |],
           (match_section (configparser.mkConfigParser
                             defaults (rename_sections rename sections))
                          (rename section) user sane_path) as [matches' | cause' |];
    try discriminate Hm; cbn [try_except bind].
  - injection Hm as <-.
    destruct (truthy (fst matches) && truthy (snd matches)); [| exact IH].
    apply without_names_bind;
      [apply (same_but_section_without_names _ _ _ (get_rename _ _ _ _)) |
       reflexivity].
  - injection Hm as Hm. cbn [without_names anonymous]. rewrite Hm. reflexivity.
  - reflexivity.
Qed.

Lemma existsb_rename name seen :
  existsb (str_eqb (rename name)) (map rename seen) = existsb (str_eqb name) seen.
Proof.
  induction seen as [| s seen IH]; [reflexivity |].
  cbn [map existsb]. rewrite str_eqb_rename, IH. reflexivity.
Qed.

Lemma check_strict_rename seen sections :
  forallb (fun s => configparser.section_name_ok (fst s)) sections = true ->
  forallb (fun s => configparser.section_name_ok (fst s))
          (rename_sections rename sections) = true ->
  without_names (configparser.check_strict seen sections)
  = without_names (configparser.check_strict (map rename seen)
                                             (rename_sections rename sections)).
Proof.
  revert seen. induction sections as [| [name opts] sections IH]; intros seen;
    [reflexivity |].
  cbn [rename_sections map forallb configparser.check_strict fst snd].
  intros Hok Hok'.
  apply andb_true_iff in Hok as [-> Hok]. apply andb_true_iff in Hok' as [-> Hok'].
  cbn [andb]. destruct (configparser.options_ok opts); [| reflexivity]. cbn [negb].
  rewrite existsb_rename. destruct (existsb (str_eqb name) seen); [reflexivity |].
  destruct (configparser.first_duplicate [] (map fst opts)); [reflexivity |].
  apply (IH (name :: seen)); assumption.
Qed.

Lemma sections_rename defaults sections :
  configparser.sections
    (configparser.mkConfigParser defaults (rename_sections rename sections))
  = map rename
        (configparser.sections (configparser.mkConfigParser defaults sections)).
Proof.
  unfold configparser.sections, rename_sections.
  cbn [configparser.cp_sections]. rewrite !map_map. reflexivity.
Qed.

Lemma authorized_rename self fs fs' user path permissions default_section sections :
  fs (_filename self) = configparser.File default_section sections ->
  fs' (_filename self)
  = configparser.File default_section (rename_sections rename sections) ->
  forallb (fun s => configparser.section_name_ok (fst s)) sections = true ->
  forallb (fun s => configparser.section_name_ok (fst s))
          (rename_sections rename sections) = true ->
  without_names (authorized self fs user path permissions)
  = without_names (authorized self fs' user path permissions).
Proof.
  intros Hfs Hfs' Hok Hok'. unfold authorized, load, configparser.read.
  rewrite Hfs, Hfs'.
  destruct (configparser.first_duplicate [] (map fst default_section));
    [reflexivity |].
  pose proof (check_strict_rename [] sections Hok Hok') as Hstrict.
  cbn [map] in Hstrict.
  destruct (configparser.check_strict [] sections) as [[] | e |],
           (configparser.check_strict [] (rename_sections rename sections))
             as [[] | e' |];
    try discriminate Hstrict; cbn [bind try_except fst snd configparser.cp_sections
                                     configparser.cp_defaults app].
  - destruct (configparser.options_ok default_section); [| reflexivity].
    cbn [bind try_except fst snd configparser.cp_sections
           configparser.cp_defaults app].
    rewrite sections_rename. apply for_sections_rename.
  - injection Hstrict as Hstrict. cbn [without_names anonymous]. rewrite Hstrict.
    reflexivity.
  - reflexivity.
Qed.
End Rename.

(** X6.  Section names are only used for naming the rule.  Take a rights
    file and the file with the same sections under other names, different
    names for different sections, every name one that a header can give to
    a section (not empty, without a line break, and not [DEFAULT], whose
    options would go to the defaults).  Every call has the same outcome on
    both: the same permissions are granted, and an exception is the same
    but for the names of the sections in its message. *)
Theorem section_names_only_name_the_rule
        (rename : str -> str) self fs fs' user path permissions
        default_section sections :
  (forall a b, rename a = rename b -> a = b) ->
  fs (_filename self) = configparser.File default_section sections ->
  fs' (_filename self)
  = configparser.File default_section (rename_sections rename sections) ->
  forallb (fun s => configparser.section_name_ok (fst s)) sections = true ->
  forallb (fun s => configparser.section_name_ok (fst s))
          (rename_sections rename sections) = true ->
  without_names (authorized self fs user path permissions)
  = without_names (authorized self fs' user path permissions) /\
  (forall granted,
      authorized self fs user path permissions = Ret granted <->
      authorized self fs' user path permissions = Ret granted).
Proof.
  intros Hinj Hfs Hfs' Hok Hok'.
  pose proof (authorized_rename rename Hinj self fs fs' user path permissions
                                default_section sections Hfs Hfs' Hok Hok') as H.
  split; [exact H |].
  intros granted.
  destruct (authorized self fs user path permissions) as [g | e |],
           (authorized self fs' user path permissions) as [g' | e' |];
    try discriminate H; try (split; discriminate).
  injection H as <-. reflexivity.
Qed.

Lemma section_names_only_name_the_rule_witness :
  without_names
    (authorized Sample.backend (Sample.holding Sample.owner_then_public)
                (Some ("alice" : str)) "/bob/calendar/" "rw")
  = without_names
      (authorized Sample.backend
                  (Sample.holding
                     (rename_sections (app ("rule-" : str)) Sample.owner_then_public))
                  (Some ("alice" : str)) "/bob/calendar/" "rw").
Proof.
  exact (proj1 (section_names_only_name_the_rule
                  (app ("rule-" : str)) Sample.backend
                  (Sample.holding Sample.owner_then_public)
                  (Sample.holding
                     (rename_sections (app ("rule-" : str)) Sample.owner_then_public))
                  (Some ("alice" : str)) "/bob/calendar/" "rw"
                  [] Sample.owner_then_public
                  (fun a b H => app_inv_head _ a b H) eq_refl eq_refl
                  eq_refl eq_refl)).
Defined.

(** ** Sections whose user pattern decides alone *)

(** X7.  The resource pattern of a section is neither put together nor
    compiled when the user pattern does not match: the loop goes on with
    the next section whatever the resource pattern is, so a resource
    pattern that is no regular expression, or that refers to a group that
    does not exist, goes unnoticed as long as no such user asks. *)
Theorem unmatched_user_skips_resource_pattern
        self fs user path permissions rights_config i section
        user_pattern collection_pattern :
  rights_config_of self fs user path = Ret rights_config ->
  reaches rights_config (or_empty user) (pathutils.strip_path path) i section ->
  configparser.get rights_config section "user" = Ret user_pattern ->
  configparser.get rights_config section "collection" = Ret collection_pattern ->
  re.fullmatch user_pattern (or_empty user) = Ret None ->
  authorized self fs user path permissions
  = for_sections self rights_config
                 (skipn (S i) (configparser.sections rights_config))
                 (or_empty user) (pathutils.strip_path path) permissions.
Proof.
  intros Hload Hreach Hu Hc Hm.
  rewrite (authorized_loaded _ _ _ _ permissions _ Hload).
  rewrite (for_sections_reaches self _ _ _ permissions _ _ Hreach).
  apply for_sections_no_match.
  apply (section_matches_user_unmatched _ _ _ _ _ _ Hu Hc Hm).
Qed.

Lemma unmatched_user_skips_resource_pattern_witness :
  authorized Sample.backend (Sample.holding Sample.broken_admin_then_public)
             (Some ("alice" : str)) "/calendar/" "rw"
  = for_sections Sample.backend
                 (configparser.mkConfigParser
                    [("login" : str, ("alice" : str)); ("path" : str, ("calendar" : str))]
                    Sample.broken_admin_then_public)
                 [("public" : str)] "alice" "calendar" "rw".
Proof.
  exact (unmatched_user_skips_resource_pattern
           Sample.backend (Sample.holding Sample.broken_admin_then_public)
           (Some ("alice" : str)) "/calendar/" "rw" _ 0 "admin" "admin" "("
           eq_refl (conj eq_refl (Forall_nil _)) eq_refl eq_refl eq_refl).
Defined.

(** X8.  A user pattern that is no regular expression makes the call fail
    for every user whose request gets to the section, with the error that
    names the section and the file; the next sections are not tried. *)
Theorem invalid_user_pattern_raises
        self fs user path permissions rights_config i section
        user_pattern collection_pattern e :
  rights_config_of self fs user path = Ret rights_config ->
  reaches rights_config (or_empty user) (pathutils.strip_path path) i section ->
  configparser.get rights_config section "user" = Ret user_pattern ->
  configparser.get rights_config section "collection" = Ret collection_pattern ->
  re.compile user_pattern = Raise e ->
  authorized self fs user path permissions
  = Raise (RuntimeError_section section (_filename self) e).
Proof.
  intros Hload Hreach Hu Hc Hcompile.
  rewrite (authorized_loaded _ _ _ _ permissions _ Hload).
  rewrite (for_sections_reaches self _ _ _ permissions _ _ Hreach).
  apply for_sections_raise. unfold match_section.
  rewrite Hu. cbn [bind]. rewrite Hc. cbn [bind].
  unfold re.fullmatch. rewrite Hcompile. reflexivity.
Qed.

Lemma invalid_user_pattern_raises_witness :
  authorized Sample.backend (Sample.holding Sample.broken_user_pattern)
             None "/calendar/" "r"
  = Raise (RuntimeError_section "staff" "/etc/radicale/rights" re_error).
Proof.
  exact (invalid_user_pattern_raises
           Sample.backend (Sample.holding Sample.broken_user_pattern)
           None "/calendar/" "r" _ 0 "staff" "staff-(.+" ".*" re_error
           eq_refl (conj eq_refl (Forall_nil _)) eq_refl eq_refl eq_refl).
Defined.

(** X9.  When the user pattern matches with a group that took no part in
    the match (a group in an alternative that was not taken, or under an
    optional part), escaping the groups fails: the call raises the error
    that names the section and the file, with [TypeError] as its cause,
    whether the resource pattern refers to the group or not. *)
Theorem unmatched_group_raises
        self fs user path permissions rights_config i section
        user_pattern collection_pattern groups :
  rights_config_of self fs user path = Ret rights_config ->
  reaches rights_config (or_empty user) (pathutils.strip_path path) i section ->
  configparser.get rights_config section "user" = Ret user_pattern ->
  configparser.get rights_config section "collection" = Ret collection_pattern ->
  re.fullmatch user_pattern (or_empty user) = Ret (Some groups) ->
  In None groups ->
  authorized self fs user path permissions
  = Raise (RuntimeError_section section (_filename self) TypeError).
Proof.
  intros Hload Hreach Hu Hc Hm Hnone.
  rewrite (authorized_loaded _ _ _ _ permissions _ Hload).
  rewrite (for_sections_reaches self _ _ _ permissions _ _ Hreach).
  apply for_sections_raise.
  rewrite (match_section_user_matched _ _ _ _ _ _ _ Hu Hc Hm).
  unfold instantiate. rewrite (map_escape_none _ Hnone). reflexivity.
Qed.

Lemma unmatched_group_raises_witness :
  authorized Sample.backend (Sample.holding Sample.guest_or_named)
             (Some ("guest" : str)) "/public/" "r"
  = Raise (RuntimeError_section "people" "/etc/radicale/rights" TypeError).
Proof.
  exact (unmatched_group_raises
           Sample.backend (Sample.holding Sample.guest_or_named)
           (Some ("guest" : str)) "/public/" "r" _ 0 "people"
           "guest|user-(.+)" "public" [None]
           eq_refl (conj eq_refl (Forall_nil _)) eq_refl eq_refl eq_refl
           (or_introl eq_refl)).
Defined.

(** ** The login in the rights file *)

(** X10.  In a rights file that has no option [login] of its own, a
    section with the resource pattern [%(login)s] matches the path that is
    the name of the user and no other path, for a user whose name has no
    percent sign and no brace: an asterisk, a dot or a parenthesis in the
    name stands for itself. *)
Theorem login_names_the_own_collection
        self fs user path rights_config default_section sections section opts
        user_pattern groups args :
  rights_config_of self fs user path = Ret rights_config ->
  fs (_filename self) = configparser.File default_section sections ->
  In (section, opts) sections ->
  configparser.lookup ("collection" : str) opts = Some ("%(login)s" : str) ->
  configparser.lookup ("login" : str) (opts ++ default_section) = None ->
  chr_in "%" (or_empty user) = false ->
  chr_in "{" (or_empty user) = false ->
  chr_in "}" (or_empty user) = false ->
  configparser.get rights_config section "user" = Ret user_pattern ->
  re.fullmatch user_pattern (or_empty user) = Ret (Some groups) ->
  map_escape groups = Ret args ->
  section_matches rights_config section (or_empty user) (pathutils.strip_path path)
  = Ret (str_eqb (pathutils.strip_path path) (or_empty user)).
Proof.
  intros Hload Hfs Hin Hcoll Hlogin Hpercent Hopen Hclose Hu Hm Hargs.
  destruct (rights_config_of_file _ _ _ _ _ Hload) as (d & secs & Hfs' & Hstrict & ->).
  rewrite Hfs in Hfs'. injection Hfs' as <- <-.
  apply check_strict_nodup in Hstrict as [Hnodup _].
  apply (login_collection_is_literal _ section opts _ _ user_pattern groups args);
    try assumption.
  - apply lookup_nodup; assumption.
  - cbn [configparser.cp_defaults]. rewrite lookup_app, Hcoll. reflexivity.
  - cbn [configparser.cp_defaults]. rewrite app_assoc, lookup_app, Hlogin.
    reflexivity.
Qed.

Lemma login_names_the_own_collection_witness :
  section_matches
    (configparser.mkConfigParser
       [("login" : str, re.escape "a.*(b)"); ("path" : str, re.escape "a.*(b)")]
       Sample.own_collection)
    "own" (or_empty (Some ("a.*(b)" : str))) (pathutils.strip_path "/a.*(b)/")
  = Ret (str_eqb (pathutils.strip_path "/a.*(b)/") (or_empty (Some ("a.*(b)" : str)))).
Proof.
  exact (login_names_the_own_collection
           Sample.backend (Sample.holding Sample.own_collection)
           (Some ("a.*(b)" : str)) "/a.*(b)/" _ [] Sample.own_collection
           "own" (snd (Sample.rule "own" ".*" "%(login)s" "rw")) ".*" [] []
           eq_refl eq_refl (or_introl eq_refl) eq_refl eq_refl eq_refl eq_refl eq_refl
           eq_refl eq_refl eq_refl).
Defined.

(** ** The name of the rights file *)

(** X11.  The rights file is the file that the configuration of the server
    names under [rights], [file], and [authorized] reads no other file: two
    file systems with the same content under this name give the same
    outcome. *)
Theorem only_the_configured_file_is_read
        (configuration : str -> str -> str) fs fs' user path permissions :
  fs (configuration "rights" "file") = fs' (configuration "rights" "file") ->
  authorized (__init__ configuration) fs user path permissions
  = authorized (__init__ configuration) fs' user path permissions.
Proof.
  intros H. unfold authorized, load, configparser.read, __init__.
  cbn [_filename]. rewrite H. reflexivity.
Qed.

Lemma only_the_configured_file_is_read_witness :
  authorized (__init__ (fun _ _ => "/etc/radicale/rights" : str))
             (Sample.holding Sample.owner_then_public)
             (Some ("alice" : str)) "/alice/calendar/" "rw"
  = authorized (__init__ (fun _ _ => "/etc/radicale/rights" : str))
               (fun filename =>
                  if str_eqb filename "/etc/radicale/rights"
                  then configparser.File [] Sample.owner_then_public
                  else configparser.BadFile)
               (Some ("alice" : str)) "/alice/calendar/" "rw".
Proof.
  exact (only_the_configured_file_is_read
           (fun _ _ => "/etc/radicale/rights" : str)
           (Sample.holding Sample.owner_then_public)
           (fun filename =>
              if str_eqb filename "/etc/radicale/rights"
              then configparser.File [] Sample.owner_then_public
              else configparser.BadFile)
           (Some ("alice" : str)) "/alice/calendar/" "rw" eq_refl).
Defined.
